(** * The descriptor ring of tools/virtio/ringtest/ring.c

    A shallow embedding of the single-producer/single-consumer descriptor
    ring (guest = producer, host = consumer) together with its event-index
    signalling, and the properties its specification states about it.

    C integers are modelled as [Z] with the wrap-around of every
    conversion written out ([u16], [u32]); pointers ([void *]) are
    modelled as their 64-bit address, [NULL] being [0]; the arrays [ring]
    and [data] are lists accessed by index.  The two endpoints are
    interleaved call by call (sequential consistency): the fences
    [smp_acquire], [smp_release], [smp_mb] and [barrier] are no-ops of
    this model. *)

From Stdlib Require Import ZArith Lia Bool List.
From stdpp Require Import base list.
Import ListNotations.

Local Open Scope Z_scope.

(** ** Machine integers *)

(** Conversion to [unsigned short]. *)
Definition u16 (x : Z) : Z := x mod 2 ^ 16.

(** Conversion to [unsigned]. *)
Definition u32 (x : Z) : Z := x mod 2 ^ 32.

(** ** The event tie-break

    [need_event] receives three [unsigned short] values; the subtraction
    is carried out on [int] and converted back to [unsigned short]. *)
Definition need_event (event next prev : Z) : bool :=
  u16 (next - event - 1) <? u16 (next - prev).

(** ** Data model *)

Definition DESC_HW : Z := 0x80.
Definition DESC_WRAP : Z := 0x40.

(** [struct desc] *)
Record desc : Type := mk_desc {
  addr : Z;    (* unsigned long long *)
  len : Z;     (* unsigned *)
  index : Z;   (* unsigned short *)
  flags : Z    (* unsigned short *)
}.

(** [struct event]; the padding bytes carry no information. *)
Record event_t : Type := mk_event {
  kick_index : Z;   (* unsigned short *)
  call_index : Z    (* unsigned short *)
}.

(** [struct data]: one entry of the shadow table.  The C field names are
    [buf] and [data]. *)
Record data_t : Type := mk_data {
  d_buf : Z;    (* void * *)
  d_data : Z    (* void * *)
}.

(** [struct guest]; the C field [wrap] is [g_wrap] here. *)
Record guest_t : Type := mk_guest {
  g_wrap : Z;             (* unsigned short *)
  avail_idx : Z;          (* unsigned *)
  last_used_idx : Z;      (* unsigned *)
  num_free : Z;           (* unsigned *)
  kicked_avail_idx : Z    (* unsigned *)
}.

(** [struct host]; the C field [wrap] is [h_wrap] here. *)
Record host_t : Type := mk_host {
  h_wrap : Z;             (* unsigned short *)
  used_idx : Z;           (* unsigned *)
  called_used_idx : Z     (* unsigned *)
}.

(** The external notification primitives [kick()] and [call()] are not
    part of ring.c: every invocation is recorded in a log. *)
Inductive signal : Type := Kick | Call.

(** The global variables of ring.c, and the log of signals sent. *)
Record state : Type := mk_state {
  ring : list desc;
  event : event_t;
  data : list data_t;
  guest : guest_t;
  host : host_t;
  signals : list signal
}.

(** The variables a caller passes by address as [lenp], [bufp] and
    [flags]: the model takes their contents before the call and returns
    their contents after it. *)
Record outs : Type := mk_outs {
  o_len : Z;
  o_buf : Z;
  o_flags : Z
}.

(** A C function either returns or ends the process with [exit]. *)
Inductive outcome (A : Type) : Type :=
| Returns (a : A)
| Exits (status : Z).
Arguments Returns {A} a.
Arguments Exits {A} status.

Definition zero_desc : desc := mk_desc 0 0 0 0.
Definition zero_data : data_t := mk_data 0 0.

(** Reading [ring[i]] and [data[i]].  An access outside the arrays is
    undefined in C; the model reads a zeroed entry there and a write
    there leaves the array as it is.  With a ring size that is a power of
    two, every index the functions below compute in a state reached from
    [alloc_ring] is inside the arrays ([slot_in_range], [data_in_range]). *)
Definition ring_at (r : list desc) (i : Z) : desc :=
  default zero_desc (r !! Z.to_nat i).

Definition data_at (t : list data_t) (i : Z) : data_t :=
  default zero_data (t !! Z.to_nat i).

Definition ring_set (r : list desc) (i : Z) (d : desc) : list desc :=
  <[Z.to_nat i := d]> r.

Definition data_set (t : list data_t) (i : Z) (e : data_t) : list data_t :=
  <[Z.to_nat i := e]> t.

Definition set_addr (d : desc) (v : Z) : desc := mk_desc v (len d) (index d) (flags d).
Definition set_len (d : desc) (v : Z) : desc := mk_desc (addr d) v (index d) (flags d).
Definition set_flags (d : desc) (v : Z) : desc := mk_desc (addr d) (len d) (index d) v.

Definition set_g_wrap (g : guest_t) (v : Z) : guest_t :=
  mk_guest v (avail_idx g) (last_used_idx g) (num_free g) (kicked_avail_idx g).
Definition set_avail_idx (g : guest_t) (v : Z) : guest_t :=
  mk_guest (g_wrap g) v (last_used_idx g) (num_free g) (kicked_avail_idx g).
Definition set_last_used_idx (g : guest_t) (v : Z) : guest_t :=
  mk_guest (g_wrap g) (avail_idx g) v (num_free g) (kicked_avail_idx g).
Definition set_num_free (g : guest_t) (v : Z) : guest_t :=
  mk_guest (g_wrap g) (avail_idx g) (last_used_idx g) v (kicked_avail_idx g).
Definition set_kicked_avail_idx (g : guest_t) (v : Z) : guest_t :=
  mk_guest (g_wrap g) (avail_idx g) (last_used_idx g) (num_free g) v.

Definition set_h_wrap (h : host_t) (v : Z) : host_t :=
  mk_host v (used_idx h) (called_used_idx h).
Definition set_used_idx (h : host_t) (v : Z) : host_t :=
  mk_host (h_wrap h) v (called_used_idx h).
Definition set_called_used_idx (h : host_t) (v : Z) : host_t :=
  mk_host (h_wrap h) (used_idx h) v.

Definition set_ring (s : state) (r : list desc) : state :=
  mk_state r (event s) (data s) (guest s) (host s) (signals s).
Definition set_event (s : state) (e : event_t) : state :=
  mk_state (ring s) e (data s) (guest s) (host s) (signals s).
Definition set_data (s : state) (t : list data_t) : state :=
  mk_state (ring s) (event s) t (guest s) (host s) (signals s).
Definition set_guest (s : state) (g : guest_t) : state :=
  mk_state (ring s) (event s) (data s) g (host s) (signals s).
Definition set_host (s : state) (h : host_t) : state :=
  mk_state (ring s) (event s) (data s) (guest s) h (signals s).
Definition send (s : state) (x : signal) : state :=
  mk_state (ring s) (event s) (data s) (guest s) (host s) (signals s ++ [x]).

(** Which allocations of [alloc_ring] succeed. *)
Record allocator : Type := mk_allocator {
  ring_allocated : bool;    (* posix_memalign returned 0 *)
  event_allocated : bool;   (* first malloc returned non-NULL *)
  data_allocated : bool     (* second malloc returned non-NULL *)
}.

Section Ring.

(** [ring_size] is declared in main.h ([unsigned ring_size]) and set once,
    before [alloc_ring], by the harness. *)
Variable ring_size : Z.

(** The slot a cursor points at: [(ring_size - 1) & idx]. *)
Definition slot_of (idx : Z) : Z := Z.land (u32 (ring_size - 1)) idx.

(** The toggle both endpoints apply to their [wrap] field. *)
Definition toggle_wrap (w : Z) : Z :=
  if w =? 0x40 then 0 else if w =? 0 then 0x40 else w.

(** [alloc_ring]: the descriptor written at position [i] is
    [{ .index = i }], [i] being converted from [int] to [unsigned short]. *)
Definition alloc_ring (m : allocator) : outcome state :=
  if negb (ring_allocated m) then Exits 3 else
  if negb (event_allocated m) then Exits 3 else
  let ev := mk_event 0 0 in
  let g := mk_guest 0x40 0 0 ring_size (u32 (-1)) in
  let h := mk_host 0x40 0 (u32 (-1)) in
  let r := (fun i => mk_desc 0 0 (u16 i) 0) <$> seqZ 0 ring_size in
  if negb (data_allocated m) then Exits 3 else
  let t := replicate (Z.to_nat ring_size) zero_data in
  Returns (mk_state r ev t g h []).

(** *** Guest side *)

(** [add_inbuf(len, buf, datap, flags)]; the parameters [len] and [flags]
    are [len_] and [flags_] here, and the C function does not use
    [flags].  The result is the returned [int]. *)
Definition add_inbuf (len_ buf datap flags_ : Z) (s : state) : Z * state :=
  let g := guest s in
  if num_free g =? 0 then (-1, s) else
  let g := set_num_free g (u32 (num_free g - 1)) in
  let head := slot_of (avail_idx g) in
  let g := set_avail_idx g (u32 (avail_idx g + 1)) in
  let g := if head =? 0 then set_g_wrap g (toggle_wrap (g_wrap g)) else g in
  let r := ring_set (ring s) head
             (set_len (set_addr (ring_at (ring s) head) buf) len_) in
  let index_ := index (ring_at r head) in
  let t := data_set (data s) index_ (mk_data buf datap) in
  let r := ring_set r head
             (set_flags (ring_at r head) (u16 (Z.lor DESC_HW (g_wrap g)))) in
  (0, mk_state r (event s) t g (host s) (signals s)).

(** [get_buf(lenp, bufp, flags)]: the returned pointer (0 for [NULL]),
    the caller's three variables after the call, and the state. *)
Definition get_buf (o : outs) (s : state) : Z * outs * state :=
  let g := guest s in
  let head := slot_of (last_used_idx g) in
  if negb (Z.land (flags (ring_at (ring s) head)) DESC_HW =? 0) then (0, o, s) else
  let lenp := len (ring_at (ring s) head) in
  let index_ := Z.land (index (ring_at (ring s) head)) (u32 (ring_size - 1)) in
  let datap := d_data (data_at (data s) index_) in
  let bufp := d_buf (data_at (data s) index_) in
  let t := data_set (data s) index_ (mk_data 0 0) in
  let g := set_num_free g (u32 (num_free g + 1)) in
  let g := set_last_used_idx g (u32 (last_used_idx g + 1)) in
  let flagsp := flags (ring_at (ring s) head) in
  (datap, mk_outs lenp bufp flagsp, set_guest (set_data s t) g).

Definition used_empty (s : state) : bool :=
  let head := slot_of (last_used_idx (guest s)) in
  negb (Z.land (flags (ring_at (ring s) head)) DESC_HW =? 0)
  && (Z.land (flags (ring_at (ring s) head)) DESC_WRAP =? h_wrap (host s)).

Definition disable_call (s : state) : state := s.

Definition enable_call (s : state) : bool * state :=
  let s := set_event s (mk_event (kick_index (event s))
                                 (u16 (last_used_idx (guest s)))) in
  (used_empty s, s).

Definition kick_available (s : state) : state :=
  if negb (need_event (kick_index (event s))
                      (u16 (avail_idx (guest s)))
                      (u16 (kicked_avail_idx (guest s))))
  then s
  else send (set_guest s (set_kicked_avail_idx (guest s) (avail_idx (guest s)))) Kick.

(** *** Host side *)

Definition disable_kick (s : state) : state := s.

Definition avail_empty (s : state) : bool :=
  let head := slot_of (used_idx (host s)) in
  Z.land (flags (ring_at (ring s) head)) DESC_HW =? 0.

Definition enable_kick (s : state) : bool * state :=
  let s := set_event s (mk_event (u16 (used_idx (host s)))
                                 (call_index (event s))) in
  (avail_empty s, s).

(** [use_buf(lenp, bufp, flags)]: the C function stores through [flags]
    only; [*lenp] and [*bufp] keep the contents they had. *)
Definition use_buf (o : outs) (s : state) : bool * outs * state :=
  let head := slot_of (used_idx (host s)) in
  let h := if head =? 0 then set_h_wrap (host s) (toggle_wrap (h_wrap (host s)))
           else host s in
  let s := set_host s h in
  if Z.land (flags (ring_at (ring s) head)) DESC_HW =? 0 then (false, o, s) else
  if negb (Z.land (flags (ring_at (ring s) head)) DESC_WRAP =? h_wrap h)
  then (false, o, s) else
  let r := ring_set (ring s) head
             (set_len (ring_at (ring s) head)
                      (u32 (len (ring_at (ring s) head) - 1))) in
  let o := mk_outs (o_len o) (o_buf o) (flags (ring_at r head)) in
  let r := ring_set r head
             (set_flags (ring_at r head)
                        (if negb (h_wrap h =? 0) then DESC_WRAP else 0)) in
  let h := set_used_idx h (u32 (used_idx h + 1)) in
  (true, o, set_host (set_ring s r) h).

Definition call_used (s : state) : state :=
  if negb (need_event (call_index (event s))
                      (u16 (used_idx (host s)))
                      (u16 (called_used_idx (host s))))
  then s
  else send (set_host s (set_called_used_idx (host s) (used_idx (host s)))) Call.

End Ring.

(** ** Driving the ring

    A harness is a sequence of calls into ring.c, the guest's and the
    host's interleaved.  Every call is given fresh locals ([no_outs]) for
    its output parameters. *)

Inductive call : Type :=
| AddInbuf (len_ buf datap flags_ : Z)
| GetBuf
| UsedEmpty
| DisableCall
| EnableCall
| KickAvailable
| DisableKick
| EnableKick
| AvailEmpty
| UseBuf
| CallUsed.

(** What a call hands back to its caller. *)
Inductive result : Type :=
| RInt (z : Z)                  (* add_inbuf *)
| RPtr (p : Z) (o : outs)       (* get_buf *)
| RUse (b : bool) (o : outs)    (* use_buf *)
| RBool (b : bool)              (* used_empty, enable_call, avail_empty, enable_kick *)
| RVoid.

Definition no_outs : outs := mk_outs 0 0 0.

Definition exec (ring_size : Z) (c : call) (s : state) : result * state :=
  match c with
  | AddInbuf l b d f =>
      let '(z, s') := add_inbuf ring_size l b d f s in (RInt z, s')
  | GetBuf =>
      let '(p, o, s') := get_buf ring_size no_outs s in (RPtr p o, s')
  | UsedEmpty => (RBool (used_empty ring_size s), s)
  | DisableCall => (RVoid, disable_call s)
  | EnableCall =>
      let '(b, s') := enable_call ring_size s in (RBool b, s')
  | KickAvailable => (RVoid, kick_available s)
  | DisableKick => (RVoid, disable_kick s)
  | EnableKick =>
      let '(b, s') := enable_kick ring_size s in (RBool b, s')
  | AvailEmpty => (RBool (avail_empty ring_size s), s)
  | UseBuf =>
      let '(b, o, s') := use_buf ring_size no_outs s in (RUse b o, s')
  | CallUsed => (RVoid, call_used s)
  end.

(** The calls of a harness in order, each paired with its result, and the
    state they leave. *)
Fixpoint run (ring_size : Z) (cs : list call) (s : state)
  : list (call * result) * state :=
  match cs with
  | [] => ([], s)
  | c :: cs =>
      let '(r, s1) := exec ring_size c s in
      let '(tr, s2) := run ring_size cs s1 in
      ((c, r) :: tr, s2)
  end.

(** The state [alloc_ring] leaves when every allocation succeeds. *)
Definition all_allocated : allocator := mk_allocator true true true.

Definition init (ring_size : Z) : state :=
  match alloc_ring ring_size all_allocated with
  | Returns s => s
  | Exits _ => mk_state [] (mk_event 0 0) [] (mk_guest 0 0 0 0 0) (mk_host 0 0 0) []
  end.

(** The tags (the [datap] arguments) of the [add_inbuf] calls that
    returned 0, in call order. *)
Fixpoint tags_published (tr : list (call * result)) : list Z :=
  match tr with
  | [] => []
  | (AddInbuf _ _ d _, RInt 0) :: tr => d :: tags_published tr
  | _ :: tr => tags_published tr
  end.

(** The non-NULL pointers [get_buf] returned, in call order. *)
Fixpoint tags_reclaimed (tr : list (call * result)) : list Z :=
  match tr with
  | [] => []
  | (GetBuf, RPtr p _) :: tr =>
      if p =? 0 then tags_reclaimed tr else p :: tags_reclaimed tr
  | _ :: tr => tags_reclaimed tr
  end.

(** The harness calls [get_buf] only while a buffer it added has not been
    reclaimed yet, that is, while [guest.num_free < ring_size]. *)
Fixpoint well_driven (ring_size : Z) (cs : list call) (s : state) : bool :=
  match cs with
  | [] => true
  | c :: cs =>
      match c with
      | GetBuf => num_free (guest s) <? ring_size
      | _ => true
      end
      && well_driven ring_size cs (snd (exec ring_size c s))
  end.

(** [add_inbuf] is never called on a full ring. *)
Fixpoint never_full (ring_size : Z) (cs : list call) (s : state) : bool :=
  match cs with
  | [] => true
  | c :: cs =>
      match c with
      | AddInbuf _ _ _ _ => negb (num_free (guest s) =? 0)
      | _ => true
      end
      && never_full ring_size cs (snd (exec ring_size c s))
  end.

(** Slots whose ownership bit [DESC_HW] is set: owned by the host. *)
Definition hw_set (d : desc) : bool := negb (Z.land (flags d) DESC_HW =? 0).

Fixpoint hw_count (r : list desc) : Z :=
  match r with
  | [] => 0
  | d :: r => (if hw_set d then 1 else 0) + hw_count r
  end.

(** Buffers the host has completed and the guest has not reclaimed yet:
    the distance from the guest's read cursor to the host's claim
    cursor. *)
Definition completed_unreclaimed (s : state) : Z :=
  u32 (used_idx (host s) - last_used_idx (guest s)).

(** The [wrap] value of the lap position [j] of a cursor lies in: the
    first lap carries 0, the next 0x40, and so on. *)
Definition lap_wrap (ring_size j : Z) : Z :=
  if Z.even (j / ring_size) then 0 else 0x40.

(** Advancing the guest's publish index by [d] entries, as [d] successful
    [add_inbuf] calls do. *)
Definition advance_avail (d : Z) (s : state) : state :=
  set_guest s (set_avail_idx (guest s) (u32 (avail_idx (guest s) + d))).

(** The guest checks for a kick after every advance of its index. *)
Fixpoint advance_and_kick (ds : list Z) (s : state) : state :=
  match ds with
  | [] => s
  | d :: ds => advance_and_kick ds (kick_available (advance_avail d s))
  end.

(** The index reached from [n] after the advances [ds]. *)
Definition final_index (n : Z) (ds : list Z) : Z :=
  fold_left (fun n d => u16 (n + d)) ds n.

(** The tie-break evaluated after every advance, against the index
    reached by the previous one. *)
Fixpoint advance_checks (e prev : Z) (ds : list Z) : list bool :=
  match ds with
  | [] => []
  | d :: ds =>
      let next := u16 (prev + d) in
      need_event e next prev :: advance_checks e next ds
  end.

(** The tie-break evaluated after every advance, against a fixed
    last-notified index [p]. *)
Fixpoint advance_checks_from (e p cur : Z) (ds : list Z) : list bool :=
  match ds with
  | [] => []
  | d :: ds =>
      let next := u16 (cur + d) in
      need_event e next p :: advance_checks_from e p next ds
  end.

Definition sumZ (ds : list Z) : Z := fold_right Z.add 0 ds.

(** How many of a series of evaluations of the tie-break were true. *)
Definition fired (bs : list bool) : nat := length (List.filter id bs).

(** ** Invariants of the ring

    [l], [u] and [a] count the buffers reclaimed, completed and added so
    far (without wrap-around); the C cursors are their values modulo
    2^32.  Positions [l .. u-1] are completed and not yet reclaimed,
    positions [u .. a-1] are owned by the host, positions [a .. l+N-1] are
    free. *)
Record core_inv (N : Z) (l u a : Z) (s : state) : Prop := mk_core_inv {
  ci_order : 0 <= l /\ l <= u /\ u <= a /\ a <= l + N;
  ci_len : Z.of_nat (length (ring s)) = N;
  ci_avail : avail_idx (guest s) = u32 a;
  ci_last : last_used_idx (guest s) = u32 l;
  ci_used : used_idx (host s) = u32 u;
  ci_free : num_free (guest s) = N - (a - l);
  ci_gwrap : g_wrap (guest s) = if a =? 0 then 0x40 else lap_wrap N (a - 1);
  ci_hwrap : (h_wrap (host s) = 0 \/ h_wrap (host s) = 0x40)
             /\ (u mod N <> 0 -> h_wrap (host s) = lap_wrap N u);
  ci_slots : forall j, l <= j < l + N ->
      if (u <=? j) && (j <? a)
      then flags (ring_at (ring s) (j mod N)) = Z.lor DESC_HW (lap_wrap N j)
      else hw_set (ring_at (ring s) (j mod N)) = false;
  ci_count : hw_count (ring s) = a - u
}.

(** [q] lists the tags of the buffers added and not yet reclaimed, oldest
    first: the tag of position [l + i] is kept in the shadow entry of its
    slot. *)
Record shadow_inv (N : Z) (q : list Z) (l : Z) (s : state) : Prop := mk_shadow_inv {
  si_len : Z.of_nat (length (data s)) = N;
  si_index : index <$> ring s = seqZ 0 N;
  si_tags : forall (i : nat) tag,
      q !! i = Some tag ->
      d_data (data_at (data s) ((l + Z.of_nat i) mod N)) = tag
}.

Definition fifo_inv (N : Z) (q : list Z) (l u : Z) (s : state) : Prop :=
  core_inv N l u (l + Z.of_nat (length q)) s /\ shadow_inv N q l s.

Definition nonnull (p : Z) : bool := negb (p =? 0).

(** The host's [wrap] once [use_buf] has looked at its cursor. *)
Definition polled_wrap (N : Z) (s : state) : Z :=
  if slot_of N (used_idx (host s)) =? 0
  then toggle_wrap (h_wrap (host s)) else h_wrap (host s).

(** The guest's [wrap] once [add_inbuf] has taken a slot. *)
Definition added_wrap (N : Z) (s : state) : Z :=
  if slot_of N (avail_idx (guest s)) =? 0
  then toggle_wrap (g_wrap (guest s)) else g_wrap (guest s).

(** ** Observations on a run *)

(** How many [add_inbuf] calls returned 0. *)
Fixpoint adds_ok (tr : list (call * result)) : Z :=
  match tr with
  | [] => 0
  | (AddInbuf _ _ _ _, RInt 0) :: tr => 1 + adds_ok tr
  | _ :: tr => adds_ok tr
  end.

(** How many [use_buf] calls returned true. *)
Fixpoint uses_ok (tr : list (call * result)) : Z :=
  match tr with
  | [] => 0
  | (UseBuf, RUse true _) :: tr => 1 + uses_ok tr
  | _ :: tr => uses_ok tr
  end.

(** The [(len, buf, datap)] arguments of the [add_inbuf] calls that
    returned 0, in call order. *)
Fixpoint bufs_published (tr : list (call * result)) : list (Z * Z * Z) :=
  match tr with
  | [] => []
  | (AddInbuf l b d _, RInt 0) :: tr => (l, b, d) :: bufs_published tr
  | _ :: tr => bufs_published tr
  end.

(** What the [get_buf] calls that returned non-NULL handed back: the
    length stored through [lenp], the pointer stored through [bufp] and
    the returned pointer, in call order. *)
Fixpoint bufs_reclaimed (tr : list (call * result)) : list (Z * Z * Z) :=
  match tr with
  | [] => []
  | (GetBuf, RPtr p o) :: tr =>
      if p =? 0 then bufs_reclaimed tr
      else (o_len o, o_buf o, p) :: bufs_reclaimed tr
  | _ :: tr => bufs_reclaimed tr
  end.

(** A buffer as the guest gets it back: the host has decremented its
    length. *)
Definition completed (x : Z * Z * Z) : Z * Z * Z :=
  (u32 (fst (fst x) - 1), snd (fst x), snd x).

Definition nonnull_tag (x : Z * Z * Z) : bool := nonnull (snd x).

(** The functions of the "guest side" section of ring.c, [kick_available]
    apart, and those of its "host side" section, [call_used] apart. *)
Definition guest_call (c : call) : bool :=
  match c with
  | AddInbuf _ _ _ _ | GetBuf | UsedEmpty | DisableCall | EnableCall => true
  | _ => false
  end.

Definition host_call (c : call) : bool :=
  match c with
  | DisableKick | EnableKick | AvailEmpty | UseBuf => true
  | _ => false
  end.

(** [q] lists the buffers added and not yet reclaimed, oldest first, as
    [(len, buf, datap)]: the shadow entry of a buffer's slot keeps [buf],
    and the descriptor keeps [len], decremented once the host has
    completed the buffer. *)
Definition payload_inv (N : Z) (q : list (Z * Z * Z)) (l u : Z) (s : state) : Prop :=
  fifo_inv N (snd <$> q) l u s
  /\ forall (i : nat) x,
      q !! i = Some x ->
      d_buf (data_at (data s) ((l + Z.of_nat i) mod N)) = snd (fst x)
      /\ len (ring_at (ring s) ((l + Z.of_nat i) mod N))
         = if l + Z.of_nat i <? u then u32 (fst (fst x) - 1) else fst (fst x).

(** The two endpoints: ring.c lists its functions under "guest side" and
    "host side". *)
Inductive endpoint : Type := Guest | Host.

Definition endpoint_of (c : call) : endpoint :=
  match c with
  | AddInbuf _ _ _ _ | GetBuf | UsedEmpty | DisableCall | EnableCall
  | KickAvailable => Guest
  | DisableKick | EnableKick | AvailEmpty | UseBuf | CallUsed => Host
  end.

(** A harness in lock step: every buffer [(len, buf, datap)] is added,
    completed and reclaimed before the next one is added. *)
Fixpoint lock_step (bs : list (Z * Z * Z)) : list call :=
  match bs with
  | [] => []
  | x :: bs =>
      AddInbuf (fst (fst x)) (snd (fst x)) (snd x) 0 :: UseBuf :: GetBuf
      :: lock_step bs
  end.

(** The guest offers the buffers [bs] one after the other, nothing else
    being called. *)
Definition offers (bs : list (Z * Z * Z)) : list call :=
  (fun x => AddInbuf (fst (fst x)) (snd (fst x)) (snd x) 0) <$> bs.

(** ** Concrete harnesses *)

(** Two buffers added, completed and reclaimed on a ring of four. *)
Definition demo_calls : list call :=
  [AddInbuf 1 500 1001 0; AddInbuf 1 501 1002 0; UseBuf; GetBuf; UseBuf; GetBuf].

(** A ring of four holding one buffer of length 5 at address 1000. *)
Definition demo_added : state := snd (add_inbuf 4 5 1000 1001 0 (init 4)).

(** A ring of four whose guest has kicked at its current index. *)
Definition demo_kicked : state :=
  set_guest (init 4) (set_kicked_avail_idx (guest (init 4)) 0).

(** [get_buf] called before anything was added, on a ring of two. *)
Definition early_get_buf : list call :=
  [GetBuf; AddInbuf 1 500 1001 0; AddInbuf 1 501 1002 0;
   UseBuf; UseBuf; GetBuf; GetBuf].

(** The host polls the empty ring, then the guest adds a buffer. *)
Definition poll_then_add : list call := [UseBuf; AddInbuf 1 500 1001 0].

(** Two buffers added, the first completed and reclaimed, on a ring of
    four. *)
(** A guest that has written and notified three entries, facing a host
    that asked to be kicked at entry 5. *)
Definition demo_armed : state :=
  mk_state (ring (init 4)) (mk_event 5 0) (data (init 4))
           (mk_guest 0x40 3 0 4 3) (host (init 4)) [].

Definition demo_pending : list call :=
  [AddInbuf 1 500 1001 0; AddInbuf 1 501 1002 0; UseBuf; GetBuf].

(** Five buffers, for two and a half laps round a ring of two. *)
Definition demo_buffers : list (Z * Z * Z) :=
  [(8, 500, 1001); (8, 501, 1002); (0, 502, 1003); (8, 503, 1004); (8, 504, 1005)].

(** * Properties *)

(** ** Machine arithmetic *)

Ltac modarith :=
  unfold u16, u32 in *;
  change (2 ^ 16) with 65536 in *; change (2 ^ 32) with 4294967296 in *;
  Z.div_mod_to_equations; lia.

Lemma u16_range x : 0 <= u16 x < 65536.
Proof. modarith. Qed.

Lemma u32_range x : 0 <= u32 x < 4294967296.
Proof. modarith. Qed.

Lemma u16_u16_add x d : u16 (u16 x + d) = u16 (x + d).
Proof. modarith. Qed.

Lemma u16_u32 x : u16 (u32 x) = u16 x.
Proof. modarith. Qed.

Lemma u32_u32_add x d : u32 (u32 x + d) = u32 (x + d).
Proof. modarith. Qed.

Lemma u32_small x : 0 <= x < 4294967296 -> u32 x = x.
Proof. modarith. Qed.

Lemma u16_small x : 0 <= x < 65536 -> u16 x = x.
Proof. modarith. Qed.

(** ** The tie-break *)

(** [need_event e n p] holds exactly when [e] is one of the [n - p]
    indices [p, p+1, ..., n-1] (modulo 2^16): with [n] at offset [t] and
    [p] at offset [s] from a base [b], when the offset of [e] lies in
    [s, t). *)
Lemma need_event_window e b s t :
  0 <= s <= t -> t < 65536 ->
  need_event e (u16 (b + t)) (u16 (b + s))
  = (s <=? u16 (e - b)) && (u16 (e - b) <? t).
Proof.
  intros Hs Ht. unfold need_event.
  destruct (Z.ltb_spec (u16 (u16 (b + t) - e - 1)) (u16 (u16 (b + t) - u16 (b + s))));
    destruct (Z.leb_spec s (u16 (e - b)));
    destruct (Z.ltb_spec (u16 (e - b)) t); simpl; try reflexivity;
    exfalso; modarith.
Qed.

(** C1.  The tie-break [need_event(event, next, prev)] is true exactly
    when [(next - event - 1) mod 2^16 < (next - prev) mod 2^16], and it
    takes the stated values on the four test vectors. *)
Theorem need_event_exact :
  (forall e n p,
      need_event e n p = true <-> (n - e - 1) mod 2 ^ 16 < (n - p) mod 2 ^ 16)
  /\ need_event 5 10 5 = true
  /\ need_event 10 10 5 = false
  /\ need_event 0 0 0 = false
  /\ need_event 65535 2 65534 = true.
Proof.
  split; [| repeat split; reflexivity].
  intros e n p. unfold need_event, u16. apply Z.ltb_lt.
Qed.

Lemma need_event_u16_next e n p : need_event e (u16 n) p = need_event e n p.
Proof.
  unfold need_event.
  replace (u16 (u16 n - e - 1)) with (u16 (n - e - 1)) by modarith.
  replace (u16 (u16 n - p)) with (u16 (n - p)) by modarith.
  reflexivity.
Qed.

Lemma need_event_u16_prev e n p : need_event e n (u16 p) = need_event e n p.
Proof.
  unfold need_event.
  replace (u16 (n - u16 p)) with (u16 (n - p)) by modarith.
  reflexivity.
Qed.

Lemma need_event_same e n : need_event e n n = false.
Proof.
  unfold need_event. rewrite Z.sub_diag. apply Z.ltb_ge.
  pose proof (u16_range (n - e - 1)). change (u16 0) with 0. lia.
Qed.

Lemma final_index_sum ds : forall n, u16 (final_index n ds) = u16 (n + sumZ ds).
Proof.
  induction ds as [| d ds IH]; intros n; simpl.
  - f_equal. lia.
  - unfold final_index in *. simpl. rewrite IH, u16_u16_add. f_equal. lia.
Qed.

Lemma sumZ_nonneg ds : Forall (fun d => 0 <= d) ds -> 0 <= sumZ ds.
Proof. induction 1; simpl; lia. Qed.

Section Telescoping.

Variables e b : Z.
Let x := u16 (e - b).

Lemma advance_checks_window ds : forall s,
  0 <= s -> Forall (fun d => 0 <= d) ds -> s + sumZ ds < 65536 ->
  existsb id (advance_checks e (u16 (b + s)) ds)
  = (s <=? x) && (x <? s + sumZ ds).
Proof.
  induction ds as [| d ds IH]; intros s Hs Hds Hsum; simpl in Hsum |- *.
  - rewrite Z.add_0_r. symmetry. apply andb_false_iff.
    destruct (Z.leb_spec s x); [right; apply Z.ltb_ge; lia | now left].
  - inversion Hds as [| ? ? Hd Hds']; subst.
    pose proof (sumZ_nonneg _ Hds') as Hnn.
    rewrite u16_u16_add, <- Z.add_assoc.
    rewrite (need_event_window e b s (s + d)) by lia.
    rewrite IH by (try assumption; lia). fold x. try unfold id.
    destruct (Z.leb_spec s x); destruct (Z.ltb_spec x (s + d));
      destruct (Z.leb_spec (s + d) x); destruct (Z.ltb_spec x (s + d + sumZ ds));
      destruct (Z.ltb_spec x (s + (d + sumZ ds))); simpl; try reflexivity; lia.
Qed.

Lemma advance_checks_from_window ds : forall t,
  0 <= t -> Forall (fun d => 0 <= d) ds -> t + sumZ ds < 65536 ->
  existsb id (advance_checks_from e (u16 b) (u16 (b + t)) ds)
  = match ds with
    | [] => false
    | _ => (0 <=? x) && (x <? t + sumZ ds)
    end.
Proof.
  induction ds as [| d ds IH]; intros t Ht Hds Hsum; simpl in Hsum |- *;
    [reflexivity |].
  inversion Hds as [| ? ? Hd Hds']; subst.
  pose proof (sumZ_nonneg _ Hds') as Hnn.
  rewrite u16_u16_add, <- Z.add_assoc.
  replace (u16 b) with (u16 (b + 0)) at 1 by (f_equal; lia).
  rewrite (need_event_window e b 0 (t + d)) by lia.
  replace (u16 (b + 0)) with (u16 b) by (f_equal; lia).
  rewrite IH by (try assumption; lia). fold x. try unfold id.
  destruct ds as [| d' ds'].
  - simpl. rewrite Z.add_0_r, orb_false_r. reflexivity.
  - remember (sumZ (d' :: ds')) as r.
    destruct (Z.leb_spec 0 x); destruct (Z.ltb_spec x (t + d));
      destruct (Z.ltb_spec x (t + d + r));
      destruct (Z.ltb_spec x (t + (d + r))); simpl; try reflexivity; lia.
Qed.

End Telescoping.

Lemma advance_and_kick_window ds : forall s b s0 t0,
  0 <= s0 <= t0 -> Forall (fun d => 0 <= d) ds -> t0 + sumZ ds < 65536 ->
  u16 (avail_idx (guest s)) = u16 (b + t0) ->
  u16 (kicked_avail_idx (guest s)) = u16 (b + s0) ->
  signals (advance_and_kick ds s)
  = signals s ++
    match ds with
    | [] => []
    | _ => if (s0 <=? u16 (kick_index (event s) - b))
              && (u16 (kick_index (event s) - b) <? t0 + sumZ ds)
           then [Kick] else []
    end.
Proof.
  induction ds as [| d ds IH]; intros s b s0 t0 Hst Hds Hsum Ha Hk;
    simpl in Hsum |- *.
  - now rewrite app_nil_r.
  - inversion Hds as [| ? ? Hd Hds']; subst.
    pose proof (sumZ_nonneg _ Hds') as Hnn.
    set (x := u16 (kick_index (event s) - b)).
    assert (Ha1 : u16 (avail_idx (guest (advance_avail d s))) = u16 (b + (t0 + d))).
    { simpl. rewrite u16_u32, <- u16_u16_add, Ha, u16_u16_add. f_equal. lia. }
    unfold kick_available at 1.
    replace (kick_index (event (advance_avail d s))) with (kick_index (event s))
      by reflexivity.
    replace (kicked_avail_idx (guest (advance_avail d s)))
      with (kicked_avail_idx (guest s)) by reflexivity.
    rewrite Ha1, Hk, (need_event_window _ b s0 (t0 + d)) by lia. fold x.
    destruct ((s0 <=? x) && (x <? t0 + d)) eqn:Hw; simpl negb; cbv iota.
    + apply andb_true_iff in Hw as [Hw1 Hw2].
      apply Z.leb_le in Hw1. apply Z.ltb_lt in Hw2.
      rewrite (IH _ b (t0 + d) (t0 + d)); try lia; try assumption.
      simpl signals. simpl event. fold x.
      replace ((s0 <=? x) && (x <? t0 + (d + sumZ ds))) with true
        by (symmetry; apply andb_true_iff; split;
            [apply Z.leb_le | apply Z.ltb_lt]; lia).
      replace ((t0 + d <=? x) && (x <? t0 + d + sumZ ds)) with false
        by (symmetry; apply andb_false_iff; left; apply Z.leb_gt; lia).
      destruct ds; now rewrite ?app_nil_r.
    + rewrite (IH _ b s0 (t0 + d)); try lia; try assumption.
      simpl signals. simpl event. fold x.
      destruct ds as [| d' ds'].
      * simpl. rewrite Z.add_0_r, Hw. reflexivity.
      * remember (sumZ (d' :: ds')) as r. f_equal.
        replace (t0 + d + r) with (t0 + (d + r)) by lia.
        reflexivity.
Qed.

(** Of the evaluations made after every advance, each against the index
    reached by the previous one, exactly one is true when the offset of
    [e] lies in the window the advances cover, and none otherwise. *)
Lemma advance_checks_count e b ds : forall s,
  0 <= s -> Forall (fun d => 0 <= d) ds -> s + sumZ ds < 65536 ->
  fired (advance_checks e (u16 (b + s)) ds)
  = if (s <=? u16 (e - b)) && (u16 (e - b) <? s + sumZ ds) then 1%nat else 0%nat.
Proof.
  set (x := u16 (e - b)).
  induction ds as [| d ds IH]; intros s Hs Hds Hsum; simpl in Hsum |- *.
  - unfold fired. cbn [List.filter length]. rewrite Z.add_0_r.
    destruct (Z.leb_spec s x); destruct (Z.ltb_spec x s); simpl;
      try reflexivity; lia.
  - apply Forall_cons in Hds as [Hd Hds'].
    pose proof (sumZ_nonneg _ Hds') as Hnn.
    rewrite u16_u16_add, <- Z.add_assoc.
    assert (Hcons : forall h t,
               fired (h :: t) = ((if h then 1 else 0) + fired t)%nat).
    { intros h t. unfold fired. cbn [List.filter]. now destruct h. }
    rewrite Hcons, IH by (try assumption; lia).
    rewrite (need_event_window e b s (s + d)) by lia. fold x.
    destruct (Z.leb_spec s x); destruct (Z.ltb_spec x (s + d));
      destruct (Z.leb_spec (s + d) x); destruct (Z.ltb_spec x (s + d + sumZ ds));
      destruct (Z.ltb_spec x (s + (d + sumZ ds))); simpl; try reflexivity; lia.
Qed.

(** C2.  Telescoping: along any sequence of advances [ds] of the current
    index that starts at the last-notified index [p] and covers fewer than
    2^16 entries in total, evaluating the tie-break once against the final
    index gives the disjunction of the evaluations after every advance,
    both when each evaluation compares against the index reached by the
    previous advance and when each compares against [p]; and a guest that
    calls [kick_available] after every advance sends exactly one kick when
    the tie-break holds against the final index, and none otherwise.
    The tie-break holds against the final index exactly when the
    requested entry has been passed, that is, when it is one of the
    [sumZ ds] entries written since [p] (its offset from [p], modulo
    2^16, is below the total advance): then exactly one of the
    evaluations made after the advances is true, and the guest sends
    exactly one kick; when it has not been passed none is true and no
    kick is sent. *)
Theorem need_event_telescopes (e p : Z) (ds : list Z) (s : state) :
  Forall (fun d => 0 <= d) ds ->
  sumZ ds < 2 ^ 16 ->
  need_event e (final_index p ds) p = existsb id (advance_checks e p ds)
  /\ need_event e (final_index p ds) p = existsb id (advance_checks_from e p p ds)
  /\ (kicked_avail_idx (guest s) = avail_idx (guest s) ->
      signals (advance_and_kick ds s)
      = signals s ++
        if need_event (kick_index (event s))
                      (final_index (u16 (avail_idx (guest s))) ds)
                      (u16 (avail_idx (guest s)))
        then [Kick] else [])
  /\ need_event e (final_index p ds) p = (u16 (e - p) <? sumZ ds)
  /\ fired (advance_checks e p ds)
     = (if u16 (e - p) <? sumZ ds then 1%nat else 0%nat)
  /\ (kicked_avail_idx (guest s) = avail_idx (guest s) ->
      signals (advance_and_kick ds s)
      = signals s ++
        if u16 (kick_index (event s) - avail_idx (guest s)) <? sumZ ds
        then [Kick] else []).
Proof.
  intros Hds Hsum. change (2 ^ 16) with 65536 in Hsum.
  pose proof (sumZ_nonneg _ Hds) as Hnn.
  assert (Hfin : forall e' q, need_event e' (final_index q ds) q
                 = (0 <=? u16 (e' - q)) && (u16 (e' - q) <? sumZ ds)).
  { intros e' q.
    rewrite <- need_event_u16_next, final_index_sum, <- need_event_u16_prev.
    replace (u16 q) with (u16 (q + 0)) by (f_equal; lia).
    rewrite (need_event_window e' q 0 (sumZ ds)) by lia. reflexivity. }
  assert (Hpass : forall e' q, need_event e' (final_index q ds) q
                  = (u16 (e' - q) <? sumZ ds)).
  { intros e' q. rewrite Hfin.
    replace (0 <=? u16 (e' - q)) with true; [reflexivity |].
    symmetry. apply Z.leb_le. apply u16_range. }
  assert (Hgen : forall q, advance_checks e q ds = advance_checks e (u16 q) ds).
  { destruct ds as [| d ds']; intros q; simpl; [reflexivity |].
    now rewrite need_event_u16_prev, u16_u16_add. }
  assert (Hkick : kicked_avail_idx (guest s) = avail_idx (guest s) ->
                  signals (advance_and_kick ds s)
                  = signals s ++
                    if need_event (kick_index (event s))
                         (final_index (u16 (avail_idx (guest s))) ds)
                         (u16 (avail_idx (guest s)))
                    then [Kick] else []);
    [| split; [| split; [| split; [| split; [| split]]]]].
  7: { intros Hk. rewrite (Hkick Hk), Hpass.
       replace (u16 (kick_index (event s) - u16 (avail_idx (guest s))))
         with (u16 (kick_index (event s) - avail_idx (guest s))) by modarith.
       reflexivity. }
  6: { rewrite Hgen. replace (u16 p) with (u16 (p + 0)) by (f_equal; lia).
       rewrite advance_checks_count by (try assumption; lia).
       replace (0 <=? u16 (e - p)) with true
         by (symmetry; apply Z.leb_le; apply u16_range).
       now rewrite Z.add_0_l. }
  5: { apply Hpass. }
  4: { exact Hkick. }
  3: { rewrite Hfin.
    assert (Hgen' : forall q ds', advance_checks_from e p q ds'
                            = advance_checks_from e (u16 p) q ds').
    { intros q ds'; revert q. induction ds' as [| d ds' IH]; intros q; simpl;
        [reflexivity |]. now rewrite need_event_u16_prev, IH. }
    assert (Hcur : forall q, advance_checks_from e (u16 p) q ds
                        = advance_checks_from e (u16 p) (u16 q) ds).
    { destruct ds as [| d ds']; intros q; simpl; [reflexivity |].
      now rewrite u16_u16_add. }
    rewrite Hgen', Hcur. replace (u16 p) with (u16 (p + 0)) at 2 by (f_equal; lia).
    rewrite advance_checks_from_window by (try assumption; lia).
    destruct ds as [| d ds']; [| reflexivity].
    simpl. apply andb_false_iff. right. apply Z.ltb_ge.
    pose proof (u16_range (e - p)). lia. }
  2: { rewrite Hfin.
    rewrite Hgen. replace (u16 p) with (u16 (p + 0)) by (f_equal; lia).
    rewrite advance_checks_window by (try assumption; lia). reflexivity. }
  - intros Hk.
    rewrite (advance_and_kick_window ds s (avail_idx (guest s)) 0 0);
      try lia; try assumption.
    + rewrite Hfin. f_equal.
      replace (u16 (kick_index (event s) - u16 (avail_idx (guest s))))
        with (u16 (kick_index (event s) - avail_idx (guest s))) by modarith.
      destruct ds as [| d ds']; [| reflexivity].
      simpl. symmetry.
      replace (_ && _) with false; [reflexivity |].
      symmetry. apply andb_false_iff. right. apply Z.ltb_ge.
      pose proof (u16_range (kick_index (event s) - avail_idx (guest s))). lia.
    + f_equal. lia.
    + rewrite Hk. f_equal. lia.
Qed.

(** Case analysis on every conditional of a goal. *)
Ltac case_ifs :=
  repeat match goal with
         | |- context [if ?b then _ else _] => destruct b eqn:?; simpl
         end.

(** C9.  No signal without progress: [need_event e n n] is false for all
    [e] and [n]; when the guest's index has not moved since its last kick
    [kick_available] changes nothing, and likewise [call_used] for the
    host; and for every call of ring.c, either the log of signals and
    both last-notified indices are as before, or the call is
    [kick_available] (resp. [call_used]), exactly one kick (resp. call) is
    sent, and that side's last-notified index moves to its current
    index. *)
Theorem no_signal_without_progress (ring_size : Z) (s : state) :
  (forall e n, need_event e n n = false)
  /\ (kicked_avail_idx (guest s) = avail_idx (guest s) -> kick_available s = s)
  /\ (called_used_idx (host s) = used_idx (host s) -> call_used s = s)
  /\ (forall c,
        let s' := snd (exec ring_size c s) in
        (signals s' = signals s
         /\ kicked_avail_idx (guest s') = kicked_avail_idx (guest s)
         /\ called_used_idx (host s') = called_used_idx (host s))
        \/ (c = KickAvailable
            /\ signals s' = signals s ++ [Kick]
            /\ kicked_avail_idx (guest s') = avail_idx (guest s)
            /\ kicked_avail_idx (guest s') <> kicked_avail_idx (guest s)
            /\ called_used_idx (host s') = called_used_idx (host s))
        \/ (c = CallUsed
            /\ signals s' = signals s ++ [Call]
            /\ called_used_idx (host s') = used_idx (host s)
            /\ called_used_idx (host s') <> called_used_idx (host s)
            /\ kicked_avail_idx (guest s') = kicked_avail_idx (guest s))).
Proof.
  split; [exact need_event_same |].
  split; [| split].
  - intros H. unfold kick_available. now rewrite H, need_event_same.
  - intros H. unfold call_used. now rewrite H, need_event_same.
  - intros c. destruct c; simpl; try (left; repeat split; reflexivity).
    + unfold add_inbuf. case_ifs; left; repeat split; reflexivity.
    + unfold get_buf. case_ifs; left; repeat split; reflexivity.
    + unfold kick_available.
      destruct (need_event _ _ _) eqn:Hn; simpl; [| left; repeat split; reflexivity].
      right; left. repeat split; try reflexivity.
      intros Heq. rewrite Heq, need_event_same in Hn. discriminate.
    + unfold use_buf. case_ifs; left; repeat split; reflexivity.
    + unfold call_used.
      destruct (need_event _ _ _) eqn:Hn; simpl; [| left; repeat split; reflexivity].
      right; right. repeat split; try reflexivity.
      intros Heq. rewrite Heq, need_event_same in Hn. discriminate.
Qed.

(** ** Initialisation *)

Lemma alloc_ring_init N : alloc_ring N all_allocated = Returns (init N).
Proof. reflexivity. Qed.

Lemma ring_init N : ring (init N) = (fun i => mk_desc 0 0 (u16 i) 0) <$> seqZ 0 N.
Proof. reflexivity. Qed.

Lemma ring_at_init N i :
  0 <= i < N -> ring_at (ring (init N)) i = mk_desc 0 0 (u16 i) 0.
Proof.
  intros Hi. unfold ring_at. rewrite ring_init, list_lookup_fmap.
  rewrite lookup_seqZ_lt by lia. simpl. do 2 f_equal. lia.
Qed.

Lemma length_ring_init N : 0 <= N -> Z.of_nat (length (ring (init N))) = N.
Proof. intros HN. rewrite ring_init, length_fmap, length_seqZ. lia. Qed.

Lemma data_init N : data (init N) = replicate (Z.to_nat N) zero_data.
Proof. reflexivity. Qed.


(** C8 (as amended).  When the ring size is at most 2^16 and every
    allocation succeeds, [alloc_ring] returns with: every descriptor
    zeroed but for its [index], which is its own position; the shadow
    table zeroed; [num_free] equal to the ring size; both [wrap] fields
    equal to 0x40.  When an allocation fails, the process exits with
    status 3. *)
Theorem alloc_ring_post (N : Z) (m : allocator) :
  0 <= N <= 2 ^ 16 ->
  match alloc_ring N m with
  | Returns s =>
      ring_allocated m = true /\ event_allocated m = true
      /\ data_allocated m = true
      /\ Z.of_nat (length (ring s)) = N
      /\ (forall i, 0 <= i < N -> ring_at (ring s) i = mk_desc 0 0 i 0)
      /\ Z.of_nat (length (data s)) = N
      /\ (forall e, e ∈ data s -> e = mk_data 0 0)
      /\ num_free (guest s) = N
      /\ g_wrap (guest s) = 0x40
      /\ h_wrap (host s) = 0x40
  | Exits status =>
      status = 3
      /\ (ring_allocated m = false \/ event_allocated m = false
          \/ data_allocated m = false)
  end.
Proof.
  intros HN. change (2 ^ 16) with 65536 in HN.
  destruct m as [[] [] []]; try (simpl; split; [reflexivity | tauto]).
  change (alloc_ring N (mk_allocator true true true)) with (Returns (init N)).
  cbv iota. repeat split.
  - now apply length_ring_init.
  - intros i Hi. rewrite ring_at_init by lia. now rewrite u16_small by lia.
  - rewrite data_init, length_replicate. lia.
  - intros e He. rewrite data_init in He. now apply elem_of_replicate in He as [-> _].
Qed.

(** C8 (as stated) fails for a ring of 2^17 entries: [index] is an
    [unsigned short], and the descriptor at position 65536 is given the
    identifier 0. *)
Lemma alloc_ring_index_wraps :
  alloc_ring 131072 all_allocated = Returns (init 131072)
  /\ index (ring_at (ring (init 131072)) 65536) = 0
  /\ index (ring_at (ring (init 131072)) 65536) <> 65536.
Proof.
  split; [reflexivity |].
  rewrite ring_at_init by lia. cbn [index].
  change (u16 65536) with 0. split; [reflexivity | lia].
Qed.

(** ** Arrays and flag bits *)

Arguments u16 : simpl never.
Arguments u32 : simpl never.
Arguments Z.land : simpl never.
Arguments Z.lor : simpl never.

Lemma ring_at_set_eq r i d :
  (Z.to_nat i < length r)%nat -> ring_at (ring_set r i d) i = d.
Proof.
  intros Hi. unfold ring_at, ring_set. now rewrite list_lookup_insert_eq.
Qed.

Lemma ring_at_set_ne r i j d :
  Z.to_nat i <> Z.to_nat j -> ring_at (ring_set r i d) j = ring_at r j.
Proof.
  intros Hij. unfold ring_at, ring_set. now rewrite list_lookup_insert_ne.
Qed.

Lemma ring_set_set r i d d' : ring_set (ring_set r i d) i d' = ring_set r i d'.
Proof. apply list_insert_insert_eq. Qed.

Lemma length_ring_set r i d : length (ring_set r i d) = length r.
Proof. apply length_insert. Qed.

Lemma data_at_set_eq t i e :
  (Z.to_nat i < length t)%nat -> data_at (data_set t i e) i = e.
Proof.
  intros Hi. unfold data_at, data_set. now rewrite list_lookup_insert_eq.
Qed.

Lemma data_at_set_ne t i j e :
  Z.to_nat i <> Z.to_nat j -> data_at (data_set t i e) j = data_at t j.
Proof.
  intros Hij. unfold data_at, data_set. now rewrite list_lookup_insert_ne.
Qed.

Lemma length_data_set t i e : length (data_set t i e) = length t.
Proof. apply length_insert. Qed.

(** A descriptor read outside the ring never has [DESC_HW] set. *)
Lemma hw_set_in_range r i :
  hw_set (ring_at r i) = true -> (Z.to_nat i < length r)%nat.
Proof.
  unfold ring_at. intros H.
  destruct (r !! Z.to_nat i) as [d |] eqn:Hd.
  - now apply lookup_lt_Some in Hd.
  - discriminate.
Qed.

Lemma land_pow2 x k :
  0 <= k -> Z.land x (2 ^ k) = if Z.testbit x k then 2 ^ k else 0.
Proof.
  intros Hk. apply Z.bits_inj'. intros n Hn.
  rewrite Z.land_spec, Z.pow2_bits_eqb by lia.
  destruct (Z.eqb_spec k n) as [-> | Hne].
  - destruct (Z.testbit x n); simpl.
    + now rewrite Z.pow2_bits_true.
    + now rewrite Z.bits_0.
  - rewrite andb_false_r.
    destruct (Z.testbit x k); [| now rewrite Z.bits_0].
    rewrite Z.pow2_bits_eqb by lia. symmetry. now apply Z.eqb_neq.
Qed.

Lemma land_wrap_cases x : Z.land x DESC_WRAP = 0 \/ Z.land x DESC_WRAP = 0x40.
Proof.
  change DESC_WRAP with (2 ^ 6). rewrite land_pow2 by lia.
  destruct (Z.testbit x 6); [right | left]; reflexivity.
Qed.

(** ** Completion *)

(** C6 (as amended).  A successful [use_buf] stores the slot's flags, as
    they were before the completion, through [flags] and leaves [*lenp]
    and [*bufp] as they were; the slot had [DESC_HW] set; its [len] is
    decremented (modulo 2^32), its flags become the host's [wrap]
    ([DESC_HW] clear, [DESC_WRAP] as the host's current lap), its other
    fields and all other slots are as before; [used_idx] advances by one
    (modulo 2^32); nothing else changes. *)
Theorem use_buf_completes (N : Z) (o o' : outs) (s s' : state) :
  use_buf N o s = (true, o', s') ->
  let head := slot_of N (used_idx (host s)) in
  let d := ring_at (ring s) head in
  o' = mk_outs (o_len o) (o_buf o) (flags d)
  /\ hw_set d = true
  /\ ring s' = ring_set (ring s) head
                 (mk_desc (addr d) (u32 (len d - 1)) (index d) (h_wrap (host s')))
  /\ ring_at (ring s') head
     = mk_desc (addr d) (u32 (len d - 1)) (index d) (h_wrap (host s'))
  /\ hw_set (ring_at (ring s') head) = false
  /\ Z.land (flags (ring_at (ring s') head)) DESC_WRAP = h_wrap (host s')
  /\ h_wrap (host s') = Z.land (flags d) DESC_WRAP
  /\ used_idx (host s') = u32 (used_idx (host s) + 1)
  /\ called_used_idx (host s') = called_used_idx (host s)
  /\ data s' = data s /\ guest s' = guest s /\ event s' = event s
  /\ signals s' = signals s.
Proof.
  intros H head d. unfold use_buf in H. fold head in H.
  cbn [ring set_host] in H. fold d in H.
  destruct (Z.land (flags d) DESC_HW =? 0) eqn:Hhw; [discriminate |].
  set (h := if head =? 0 then _ else _) in H.
  destruct (Z.land (flags d) DESC_WRAP =? h_wrap h) eqn:Hw; [| discriminate].
  cbn [negb] in H. apply Z.eqb_eq in Hw.
  assert (Hin : (Z.to_nat head < length (ring s))%nat).
  { apply hw_set_in_range. fold d. unfold hw_set. now rewrite Hhw. }
  rewrite ring_at_set_eq in H by assumption.
  rewrite ring_set_set in H.
  assert (Hh : (if negb (h_wrap h =? 0) then DESC_WRAP else 0) = h_wrap h).
  { rewrite <- Hw. destruct (land_wrap_cases (flags d)) as [-> | ->]; reflexivity. }
  cbn [flags set_len set_flags addr len index] in H. rewrite Hh in H.
  inversion H; subst o' s'; clear H. cbn.
  rewrite ring_at_set_eq by assumption.
  repeat split; try reflexivity.
  - unfold hw_set. now rewrite Hhw.
  - unfold hw_set. cbn [flags]. rewrite <- Hw.
    destruct (land_wrap_cases (flags d)) as [-> | ->]; reflexivity.
  - cbn [flags]. rewrite <- Hw.
    destruct (land_wrap_cases (flags d)) as [-> | ->]; reflexivity.
  - symmetry. exact Hw.
  - subst h. now destruct (head =? 0).
  - subst h. now destruct (head =? 0).
Qed.

(** C6 (as stated) fails: after [add_inbuf] of a buffer of length 5 at
    address 1000, a successful [use_buf] leaves the caller's [*lenp] (77)
    and [*bufp] (88) untouched; only [*flags] receives the slot's
    flags. *)
Lemma use_buf_returns_flags_only :
  len (ring_at (ring demo_added) 0) = 5
  /\ addr (ring_at (ring demo_added) 0) = 1000
  /\ fst (use_buf 4 (mk_outs 77 88 99) demo_added) = (true, mk_outs 77 88 0x80)
  /\ len (ring_at (ring (snd (use_buf 4 (mk_outs 77 88 99) demo_added))) 0) = 4.
Proof. vm_compute. repeat split; reflexivity. Qed.

(** ** Rings whose size is a power of two *)

Section PowerOfTwo.

Variables k N : Z.
Hypothesis Hk : 0 <= k <= 31.
Hypothesis HN : N = 2 ^ k.

Lemma N_pos : 0 < N.
Proof. subst N. apply Z.pow_pos_nonneg; lia. Qed.

Lemma N_le : N <= 2 ^ 31.
Proof. subst N. apply Z.pow_le_mono_r; lia. Qed.

Lemma N_divides : 4294967296 = N * 2 ^ (32 - k).
Proof.
  subst N. rewrite <- Z.pow_add_r by lia.
  replace (k + (32 - k)) with 32 by lia. reflexivity.
Qed.

(** Masking with [ring_size - 1] is the remainder modulo [ring_size]. *)
Lemma slot_of_mod idx : slot_of N idx = idx mod N.
Proof.
  unfold slot_of. pose proof N_pos. pose proof N_le.
  rewrite u32_small by (change (2 ^ 31) with 2147483648 in *; lia).
  rewrite Z.land_comm. subst N.
  replace (2 ^ k - 1) with (Z.ones k) by (rewrite Z.ones_equiv; lia).
  apply Z.land_ones. lia.
Qed.

Lemma u32_mod_N x : u32 x mod N = x mod N.
Proof.
  unfold u32. change (2 ^ 32) with 4294967296. rewrite N_divides.
  pose proof N_pos.
  rewrite Z.rem_mul_r by (try lia; apply Z.pow_pos_nonneg; lia).
  rewrite Z.mul_comm, Z.mod_add by lia. apply Z.mod_mod. lia.
Qed.

Lemma slot_of_u32 x : slot_of N (u32 x) = x mod N.
Proof. now rewrite slot_of_mod, u32_mod_N. Qed.

Lemma mod_N_range x : 0 <= x mod N < N.
Proof. apply Z.mod_pos_bound, N_pos. Qed.

(** Two positions of one window of [N] consecutive positions that fall
    on the same slot are the same position. *)
Lemma window_inj l j j' :
  l <= j < l + N -> l <= j' < l + N -> j mod N = j' mod N -> j = j'.
Proof.
  intros Hj Hj' Heq. pose proof N_pos.
  pose proof (Z.div_mod j N ltac:(lia)). pose proof (Z.div_mod j' N ltac:(lia)).
  pose proof (mod_N_range j). pose proof (mod_N_range j').
  assert (j / N = j' / N) by nia. nia.
Qed.

Lemma mod_N_add_N x : (x + N) mod N = x mod N.
Proof.
  pose proof N_pos. replace (x + N) with (x + 1 * N) by lia.
  apply Z.mod_add. lia.
Qed.

Lemma lap_wrap_cases j : lap_wrap N j = 0 \/ lap_wrap N j = 0x40.
Proof. unfold lap_wrap. destruct (Z.even _); auto. Qed.

Lemma lap_wrap_0 : lap_wrap N 0 = 0.
Proof. unfold lap_wrap. now rewrite Z.div_0_l by (pose proof N_pos; lia). Qed.

(** Within a lap the [wrap] value is constant ... *)
Lemma lap_wrap_same j : j mod N <> 0 -> lap_wrap N (j - 1) = lap_wrap N j.
Proof.
  intros Hj. unfold lap_wrap. pose proof N_pos.
  replace ((j - 1) / N) with (j / N); [reflexivity |].
  pose proof (Z.div_mod j N ltac:(lia)). pose proof (mod_N_range j).
  apply (Z.div_unique _ _ _ (j mod N - 1)); lia.
Qed.

(** ... and it toggles where a lap begins. *)
Lemma lap_wrap_toggle j :
  j mod N = 0 -> lap_wrap N j = toggle_wrap (lap_wrap N (j - 1)).
Proof.
  intros Hj. unfold lap_wrap. pose proof N_pos.
  pose proof (Z.div_mod j N ltac:(lia)).
  replace ((j - 1) / N) with (j / N - 1)
    by (apply (Z.div_unique _ _ _ (N - 1)); lia).
  replace (j / N) with (Z.succ (j / N - 1)) at 1 by lia.
  rewrite Z.even_succ, <- Z.negb_even.
  destruct (Z.even (j / N - 1)); reflexivity.
Qed.

End PowerOfTwo.

(** Flag values written by the two endpoints. *)
Lemma flags_of_wrap w :
  w = 0 \/ w = 0x40 ->
  u16 (Z.lor DESC_HW w) = Z.lor DESC_HW w
  /\ (Z.land (Z.lor DESC_HW w) DESC_HW =? 0) = false
  /\ Z.land (Z.lor DESC_HW w) DESC_WRAP = w
  /\ (Z.land w DESC_HW =? 0) = true
  /\ (if negb (w =? 0) then DESC_WRAP else 0) = w
  /\ (toggle_wrap w = 0 \/ toggle_wrap w = 0x40)
  /\ toggle_wrap w <> w.
Proof. intros [-> | ->]; vm_compute; repeat split; auto; discriminate. Qed.

Lemma hw_count_set r : forall i d d',
  r !! i = Some d ->
  hw_count (<[i := d']> r)
  = hw_count r - (if hw_set d then 1 else 0) + (if hw_set d' then 1 else 0).
Proof.
  induction r as [| x r IH]; intros i d d' Hi; [discriminate |].
  destruct i as [| i]; simpl in *.
  - inversion Hi; subst. lia.
  - rewrite (IH i d d' Hi). lia.
Qed.

Lemma hw_count_ring_set r i d' :
  (Z.to_nat i < length r)%nat ->
  hw_count (ring_set r i d')
  = hw_count r - (if hw_set (ring_at r i) then 1 else 0)
    + (if hw_set d' then 1 else 0).
Proof.
  intros Hi. unfold ring_set, ring_at.
  destruct (lookup_lt_is_Some_2 r (Z.to_nat i) Hi) as [d Hd].
  rewrite Hd. simpl. now apply hw_count_set.
Qed.

(** ** The paths through [add_inbuf], [get_buf] and [use_buf] *)

Lemma add_inbuf_full N l b d f s :
  num_free (guest s) = 0 -> add_inbuf N l b d f s = (-1, s).
Proof. intros H. unfold add_inbuf. now rewrite H. Qed.

Lemma add_inbuf_ok N l b d f s :
  num_free (guest s) <> 0 ->
  let head := slot_of N (avail_idx (guest s)) in
  (Z.to_nat head < length (ring s))%nat ->
  add_inbuf N l b d f s
  = (0, mk_state
          (ring_set (ring s) head
             (mk_desc b l (index (ring_at (ring s) head))
                (u16 (Z.lor DESC_HW (added_wrap N s)))))
          (event s)
          (data_set (data s) (index (ring_at (ring s) head)) (mk_data b d))
          (mk_guest (added_wrap N s) (u32 (avail_idx (guest s) + 1))
             (last_used_idx (guest s)) (u32 (num_free (guest s) - 1))
             (kicked_avail_idx (guest s)))
          (host s) (signals s)).
Proof.
  intros Hnf head Hin. unfold add_inbuf, added_wrap.
  apply Z.eqb_neq in Hnf. rewrite Hnf.
  cbn [avail_idx set_num_free set_avail_idx]. fold head.
  rewrite !ring_at_set_eq, ring_set_set by (rewrite ?length_ring_set; assumption).
  destruct (head =? 0); reflexivity.
Qed.

Lemma get_buf_busy N o s :
  hw_set (ring_at (ring s) (slot_of N (last_used_idx (guest s)))) = true ->
  get_buf N o s = (0, o, s).
Proof. intros H. unfold get_buf. unfold hw_set in H. now rewrite H. Qed.

Lemma get_buf_ok N o s :
  let d := ring_at (ring s) (slot_of N (last_used_idx (guest s))) in
  let i := Z.land (index d) (u32 (N - 1)) in
  hw_set d = false ->
  get_buf N o s
  = (d_data (data_at (data s) i),
     mk_outs (len d) (d_buf (data_at (data s) i)) (flags d),
     mk_state (ring s) (event s) (data_set (data s) i (mk_data 0 0))
       (mk_guest (g_wrap (guest s)) (avail_idx (guest s))
          (u32 (last_used_idx (guest s) + 1)) (u32 (num_free (guest s) + 1))
          (kicked_avail_idx (guest s)))
       (host s) (signals s)).
Proof. intros d i H. unfold get_buf. unfold hw_set in H. fold d. now rewrite H. Qed.

Lemma use_buf_empty N o s :
  let d := ring_at (ring s) (slot_of N (used_idx (host s))) in
  hw_set d = false \/ Z.land (flags d) DESC_WRAP <> polled_wrap N s ->
  use_buf N o s
  = (false, o, set_host s (set_h_wrap (host s) (polled_wrap N s))).
Proof.
  intros d H. unfold use_buf, polled_wrap in *. fold d in H |- *.
  cbn [ring set_host]. fold d.
  assert (Hs : set_host s (if slot_of N (used_idx (host s)) =? 0
                           then set_h_wrap (host s) (toggle_wrap (h_wrap (host s)))
                           else host s)
               = set_host s (set_h_wrap (host s)
                   (if slot_of N (used_idx (host s)) =? 0
                    then toggle_wrap (h_wrap (host s)) else h_wrap (host s)))).
  { destruct (slot_of N (used_idx (host s)) =? 0); [reflexivity |].
    now destruct s as [? ? ? ? [] ?]. }
  unfold hw_set in H.
  destruct (Z.land (flags d) DESC_HW =? 0) eqn:Hhw; [now rewrite Hs |].
  destruct H as [H | H]; [discriminate |].
  replace (Z.land (flags d) DESC_WRAP =? h_wrap _) with false;
    [cbn [negb]; now rewrite Hs |].
  symmetry. apply Z.eqb_neq. revert H.
  now destruct (slot_of N (used_idx (host s)) =? 0).
Qed.

Lemma use_buf_ok N o s :
  let head := slot_of N (used_idx (host s)) in
  let d := ring_at (ring s) head in
  hw_set d = true ->
  Z.land (flags d) DESC_WRAP = polled_wrap N s ->
  use_buf N o s
  = (true, mk_outs (o_len o) (o_buf o) (flags d),
     mk_state
       (ring_set (ring s) head
          (mk_desc (addr d) (u32 (len d - 1)) (index d) (polled_wrap N s)))
       (event s) (data s) (guest s)
       (mk_host (polled_wrap N s) (u32 (used_idx (host s) + 1))
          (called_used_idx (host s)))
       (signals s)).
Proof.
  intros head d Hhw Hw.
  destruct (use_buf N o s) as [[b o'] s'] eqn:Hu.
  assert (Hin : (Z.to_nat head < length (ring s))%nat)
    by now apply hw_set_in_range.
  assert (Hwc : (if negb (polled_wrap N s =? 0) then DESC_WRAP else 0)
                = polled_wrap N s).
  { rewrite <- Hw. destruct (land_wrap_cases (flags d)) as [-> | ->]; reflexivity. }
  unfold use_buf in Hu. fold head in Hu. cbn [ring set_host] in Hu. fold d in Hu.
  unfold hw_set in Hhw. apply negb_true_iff in Hhw. rewrite Hhw in Hu.
  unfold polled_wrap in Hw, Hwc |- *. fold head in Hw, Hwc |- *.
  destruct (head =? 0) eqn:Hh; cbn [h_wrap set_h_wrap] in Hu;
    rewrite Hw, Z.eqb_refl in Hu; cbn [negb] in Hu;
    rewrite ring_at_set_eq, ring_set_set in Hu by assumption;
    cbn [flags set_len set_flags addr len index used_idx set_used_idx
         h_wrap called_used_idx set_ring set_host ring event data guest
         signals] in Hu;
    rewrite Hwc in Hu; now inversion Hu.
Qed.

(** ** The ring between the three cursors *)

Section Conservation.

Variables k N : Z.
Hypothesis Hk : 0 <= k <= 31.
Hypothesis HN : N = 2 ^ k.

Let Npos := N_pos k N Hk HN.
Let Nle := N_le k N Hk HN.
Let slot_u32 := slot_of_u32 k N Hk HN.
Let modr := mod_N_range k N Hk HN.
Let winj := window_inj k N Hk HN.

Lemma hw_count_none r : (forall d, d ∈ r -> hw_set d = false) -> hw_count r = 0.
Proof.
  induction r as [| d r IH]; intros H; simpl; [reflexivity |].
  rewrite (H d) by apply list_elem_of_here.
  rewrite IH; [reflexivity |]. intros d' Hd'. apply H. now apply list_elem_of_further.
Qed.

Lemma core_inv_init : core_inv N 0 0 0 (init N).
Proof.
  pose proof Npos.
  constructor; try reflexivity; try lia.
  - apply length_ring_init. lia.
  - simpl. lia.
  - split; [now right | intros H'; now rewrite Z.mod_0_l in H' by lia].
  - intros j Hj. replace ((0 <=? j) && (j <? 0)) with false
      by (symmetry; apply andb_false_iff; right; apply Z.ltb_ge; lia).
    rewrite ring_at_init by apply modr. reflexivity.
  - apply hw_count_none. intros d Hd. rewrite ring_init in Hd.
    apply list_elem_of_fmap in Hd as (i & -> & _). reflexivity.
Qed.

Lemma slot_in_range l u a s j :
  core_inv N l u a s -> (Z.to_nat (j mod N) < length (ring s))%nat.
Proof. intros I. pose proof (ci_len _ _ _ _ _ I). pose proof (modr j). lia. Qed.

Lemma slot_ne j j' : j mod N <> j' mod N -> Z.to_nat (j mod N) <> Z.to_nat (j' mod N).
Proof. intros H. pose proof (modr j). pose proof (modr j'). lia. Qed.

Lemma added_wrap_lap l u a s :
  core_inv N l u a s -> added_wrap N s = lap_wrap N a.
Proof.
  intros I. unfold added_wrap.
  rewrite (ci_avail _ _ _ _ _ I), slot_u32, (ci_gwrap _ _ _ _ _ I).
  destruct (ci_order _ _ _ _ _ I) as (Hl & _ & _ & _).
  destruct (Z.eqb_spec (a mod N) 0) as [Hm | Hm].
  - destruct (Z.eqb_spec a 0) as [-> | Ha].
    + now rewrite (lap_wrap_0 k N Hk HN).
    + now rewrite (lap_wrap_toggle k N Hk HN a Hm).
  - destruct (Z.eqb_spec a 0) as [-> | Ha].
    + now rewrite Z.mod_0_l in Hm by lia.
    + now apply (lap_wrap_same k N Hk HN).
Qed.

(** The slot the host's cursor points at. *)
Lemma slot_at_used l u a s :
  core_inv N l u a s ->
  (u < a -> flags (ring_at (ring s) (u mod N)) = Z.lor DESC_HW (lap_wrap N u))
  /\ (u = a -> hw_set (ring_at (ring s) (u mod N)) = false).
Proof.
  intros I. destruct (ci_order _ _ _ _ _ I) as (Hl & Hlu & Hua & Hal).
  split.
  - intros Hlt. pose proof (ci_slots _ _ _ _ _ I u ltac:(lia)) as Hs.
    replace ((u <=? u) && (u <? a)) with true in Hs; [exact Hs |].
    symmetry. apply andb_true_iff. split; [apply Z.leb_le | apply Z.ltb_lt]; lia.
  - intros ->. destruct (Z.eq_dec a (l + N)) as [-> | Hne].
    + pose proof (ci_slots _ _ _ _ _ I l ltac:(lia)) as Hs.
      replace ((l + N <=? l) && (l <? l + N)) with false in Hs
        by (symmetry; apply andb_false_iff; left; apply Z.leb_gt; lia).
      now rewrite (mod_N_add_N k N Hk HN).
    + pose proof (ci_slots _ _ _ _ _ I a ltac:(lia)) as Hs.
      replace ((a <=? a) && (a <? a)) with false in Hs; [exact Hs |].
      symmetry. apply andb_false_iff. right. apply Z.ltb_ge. lia.
Qed.

(** [add_inbuf] either finds the ring full and changes nothing, or takes
    the free slot at position [a]. *)
Lemma add_inbuf_core l u a s len_ b d f :
  core_inv N l u a s ->
  (a = l + N /\ add_inbuf N len_ b d f s = (-1, s))
  \/ (a < l + N /\ fst (add_inbuf N len_ b d f s) = 0
      /\ core_inv N l u (a + 1) (snd (add_inbuf N len_ b d f s))).
Proof.
  intros I. destruct (ci_order _ _ _ _ _ I) as (Hl & Hlu & Hua & Hal).
  pose proof Npos. pose proof Nle. change (2 ^ 31) with 2147483648 in *.
  destruct (Z.eq_dec a (l + N)) as [Ha | Ha].
  - left. split; [assumption |]. apply add_inbuf_full.
    rewrite (ci_free _ _ _ _ _ I). lia.
  - right. split; [lia |].
    assert (Hhead : slot_of N (avail_idx (guest s)) = a mod N)
      by now rewrite (ci_avail _ _ _ _ _ I), slot_u32.
    rewrite add_inbuf_ok;
      [| rewrite (ci_free _ _ _ _ _ I); lia
       | rewrite Hhead; now apply (slot_in_range l u a)].
    rewrite Hhead, (added_wrap_lap _ _ _ _ I).
    destruct (flags_of_wrap _ (lap_wrap_cases N a)) as (Hu16 & Hhw & _).
    rewrite Hu16. split; [reflexivity |]. cbn [snd].
    pose proof (ci_slots _ _ _ _ _ I a ltac:(lia)) as Hfree.
    replace ((u <=? a) && (a <? a)) with false in Hfree
      by (symmetry; apply andb_false_iff; right; apply Z.ltb_ge; lia).
    constructor; cbn [ring guest host avail_idx last_used_idx num_free g_wrap].
    + lia.
    + rewrite length_ring_set. apply (ci_len _ _ _ _ _ I).
    + rewrite (ci_avail _ _ _ _ _ I). apply u32_u32_add.
    + apply (ci_last _ _ _ _ _ I).
    + apply (ci_used _ _ _ _ _ I).
    + rewrite (ci_free _ _ _ _ _ I). rewrite u32_small by lia. lia.
    + replace (a + 1 =? 0) with false by (symmetry; apply Z.eqb_neq; lia).
      f_equal. lia.
    + apply (ci_hwrap _ _ _ _ _ I).
    + intros j Hj. destruct (Z.eq_dec j a) as [-> | Hja].
      * replace ((u <=? a) && (a <? a + 1)) with true
          by (symmetry; apply andb_true_iff;
              split; [apply Z.leb_le | apply Z.ltb_lt]; lia).
        rewrite ring_at_set_eq by now apply (slot_in_range l u a). reflexivity.
      * rewrite ring_at_set_ne
          by (apply slot_ne; intros E; apply Hja; symmetry;
              apply (winj l); [lia | lia | exact E]).
        replace (j <? a + 1) with (j <? a)
          by (destruct (Z.ltb_spec j a); destruct (Z.ltb_spec j (a + 1)); lia).
        apply (ci_slots _ _ _ _ _ I j Hj).
    + rewrite hw_count_ring_set by now apply (slot_in_range l u a).
      rewrite Hfree, (ci_count _ _ _ _ _ I).
      unfold hw_set. cbn [flags]. rewrite Hhw. simpl. lia.
Qed.

(** While a buffer is outstanding, [get_buf] either finds the oldest one
    still owned by the host and changes nothing, or reclaims it. *)
Lemma get_buf_core l u a s o :
  core_inv N l u a s -> l < a ->
  (l = u /\ get_buf N o s = (0, o, s))
  \/ (l < u
      /\ hw_set (ring_at (ring s) (l mod N)) = false
      /\ core_inv N (l + 1) u a (snd (get_buf N o s))).
Proof.
  intros I Hla. destruct (ci_order _ _ _ _ _ I) as (Hl & Hlu & Hua & Hal).
  pose proof Npos. pose proof Nle. change (2 ^ 31) with 2147483648 in *.
  assert (Hhead : slot_of N (last_used_idx (guest s)) = l mod N)
    by now rewrite (ci_last _ _ _ _ _ I), slot_u32.
  pose proof (ci_slots _ _ _ _ _ I l ltac:(lia)) as Hs.
  destruct (Z.eq_dec l u) as [Heq | Hne].
  - left. split; [assumption |]. apply get_buf_busy. rewrite Hhead.
    replace ((u <=? l) && (l <? a)) with true in Hs
      by (symmetry; apply andb_true_iff;
          split; [apply Z.leb_le | apply Z.ltb_lt]; lia).
    unfold hw_set. rewrite Hs.
    now destruct (flags_of_wrap _ (lap_wrap_cases N l)) as (_ & -> & _).
  - right. split; [lia |].
    replace ((u <=? l) && (l <? a)) with false in Hs
      by (symmetry; apply andb_false_iff; left; apply Z.leb_gt; lia).
    split; [assumption |].
    rewrite get_buf_ok by now rewrite Hhead. cbn [snd].
    constructor; cbn [ring guest host avail_idx last_used_idx num_free g_wrap].
    + lia.
    + apply (ci_len _ _ _ _ _ I).
    + apply (ci_avail _ _ _ _ _ I).
    + rewrite (ci_last _ _ _ _ _ I). apply u32_u32_add.
    + apply (ci_used _ _ _ _ _ I).
    + rewrite (ci_free _ _ _ _ _ I). rewrite u32_small by lia. lia.
    + apply (ci_gwrap _ _ _ _ _ I).
    + apply (ci_hwrap _ _ _ _ _ I).
    + intros j Hj. destruct (Z.eq_dec j (l + N)) as [-> | Hjn].
      * replace ((u <=? l + N) && (l + N <? a)) with false
          by (symmetry; apply andb_false_iff; right; apply Z.ltb_ge; lia).
        now rewrite (mod_N_add_N k N Hk HN).
      * apply (ci_slots _ _ _ _ _ I j). lia.
    + apply (ci_count _ _ _ _ _ I).
Qed.

(** [use_buf] either reports the ring empty, touching nothing but the
    host's [wrap], or completes the oldest buffer the host owns. *)
Lemma use_buf_core l u a s o :
  core_inv N l u a s ->
  (use_buf N o s = (false, o, set_host s (set_h_wrap (host s) (polled_wrap N s)))
   /\ (u = a \/ u mod N = 0)
   /\ core_inv N l u a (snd (use_buf N o s)))
  \/ (fst (fst (use_buf N o s)) = true /\ u < a
      /\ core_inv N l (u + 1) a (snd (use_buf N o s))).
Proof.
  intros I. destruct (ci_order _ _ _ _ _ I) as (Hl & Hlu & Hua & Hal).
  pose proof Npos. pose proof Nle. change (2 ^ 31) with 2147483648 in *.
  assert (Hhead : slot_of N (used_idx (host s)) = u mod N)
    by now rewrite (ci_used _ _ _ _ _ I), slot_u32.
  destruct (slot_at_used _ _ _ _ I) as [Hpend Hnone].
  destruct (ci_hwrap _ _ _ _ _ I) as [Hhc Hhl].
  assert (Hpw : (polled_wrap N s = 0 \/ polled_wrap N s = 0x40)
                /\ (u mod N <> 0 -> polled_wrap N s = lap_wrap N u)).
  { unfold polled_wrap. rewrite Hhead.
    destruct (Z.eqb_spec (u mod N) 0) as [Hm | Hm].
    - split; [| tauto]. now destruct (flags_of_wrap _ Hhc) as (_ & _ & _ & _ & _ & ? & _).
    - split; auto. }
  assert (Hfail : forall (Hcase : u = a \/ u mod N = 0),
             use_buf N o s
             = (false, o, set_host s (set_h_wrap (host s) (polled_wrap N s))) ->
             use_buf N o s
             = (false, o, set_host s (set_h_wrap (host s) (polled_wrap N s)))
             /\ (u = a \/ u mod N = 0)
             /\ core_inv N l u a (snd (use_buf N o s))).
  { intros Hcase E. split; [exact E |]. split; [exact Hcase |]. rewrite E. cbn [snd].
    constructor; cbn [ring guest host h_wrap used_idx set_host set_h_wrap];
      try apply I. exact Hpw. }
  destruct (Z.eq_dec u a) as [Heq | Hne].
  { left. apply Hfail; [now left |]. apply use_buf_empty. left.
    rewrite Hhead. now apply Hnone. }
  assert (Hlt : u < a) by lia. specialize (Hpend Hlt).
  destruct (flags_of_wrap _ (lap_wrap_cases N u)) as (_ & Hhw & Hwr & _).
  destruct (Z.eq_dec (lap_wrap N u) (polled_wrap N s)) as [Hmatch | Hmis].
  - right.
    rewrite use_buf_ok;
      [| rewrite Hhead; unfold hw_set; now rewrite Hpend, Hhw
       | rewrite Hhead, Hpend, Hwr; exact Hmatch].
    split; [reflexivity |]. split; [assumption |]. cbn [snd].
    rewrite Hhead, <- Hmatch.
    destruct (flags_of_wrap _ (lap_wrap_cases N u)) as (_ & _ & _ & Hclr & _).
    constructor; cbn [ring guest host h_wrap used_idx].
    + lia.
    + rewrite length_ring_set. apply (ci_len _ _ _ _ _ I).
    + apply (ci_avail _ _ _ _ _ I).
    + apply (ci_last _ _ _ _ _ I).
    + rewrite (ci_used _ _ _ _ _ I). apply u32_u32_add.
    + apply (ci_free _ _ _ _ _ I).
    + apply (ci_gwrap _ _ _ _ _ I).
    + split; [apply lap_wrap_cases |]. intros Hm.
      rewrite <- (lap_wrap_same k N Hk HN (u + 1) Hm). f_equal. lia.
    + intros j Hj. destruct (Z.eq_dec j u) as [-> | Hju].
      * replace ((u + 1 <=? u) && (u <? a)) with false
          by (symmetry; apply andb_false_iff; left; apply Z.leb_gt; lia).
        rewrite ring_at_set_eq by now apply (slot_in_range l u a).
        unfold hw_set. cbn [flags]. now rewrite Hclr.
      * rewrite ring_at_set_ne
          by (apply slot_ne; intros E; apply Hju; symmetry;
              apply (winj l); [lia | lia | exact E]).
        replace (u + 1 <=? j) with (u <=? j)
          by (destruct (Z.leb_spec u j); destruct (Z.leb_spec (u + 1) j); lia).
        apply (ci_slots _ _ _ _ _ I j Hj).
    + rewrite hw_count_ring_set by now apply (slot_in_range l u a).
      rewrite (ci_count _ _ _ _ _ I).
      unfold hw_set at 1. rewrite Hpend, Hhw.
      unfold hw_set. cbn [flags]. rewrite Hclr. simpl. lia.
  - left. apply Hfail.
    + right. destruct (Z.eq_dec (u mod N) 0) as [Hm | Hm]; [assumption |].
      exfalso. apply Hmis. symmetry. now apply Hpw.
    + apply use_buf_empty. right. now rewrite Hhead, Hpend, Hwr.
Qed.

(** The calls other than [add_inbuf], [get_buf] and [use_buf] touch
    neither the ring nor the cursors. *)
Lemma core_inv_frame l u a s s' :
  core_inv N l u a s ->
  ring s' = ring s ->
  g_wrap (guest s') = g_wrap (guest s) ->
  avail_idx (guest s') = avail_idx (guest s) ->
  last_used_idx (guest s') = last_used_idx (guest s) ->
  num_free (guest s') = num_free (guest s) ->
  h_wrap (host s') = h_wrap (host s) ->
  used_idx (host s') = used_idx (host s) ->
  core_inv N l u a s'.
Proof.
  intros I Hr Hgw Ha Hlu Hnf Hhw Hu.
  constructor; rewrite ?Hr, ?Hgw, ?Ha, ?Hlu, ?Hnf, ?Hhw, ?Hu; apply I.
Qed.

(** Every call of a well-driven harness keeps the ring between the three
    cursors. *)
Lemma exec_core l u a s c :
  core_inv N l u a s ->
  (c = GetBuf -> num_free (guest s) < N) ->
  exists l' u' a', core_inv N l' u' a' (snd (exec N c s)).
Proof.
  intros I Hdrv. destruct c; cbn [exec].
  - destruct (add_inbuf_core l u a s len_ buf datap flags_ I) as [[_ E] | (_ & _ & I')].
    + rewrite E. now exists l, u, a.
    + destruct (add_inbuf _ _ _ _ _ s) as [z s']. now exists l, u, (a + 1).
  - assert (Hla : l < a) by (specialize (Hdrv eq_refl);
                              rewrite (ci_free _ _ _ _ _ I) in Hdrv; lia).
    destruct (get_buf_core l u a s no_outs I Hla) as [[_ E] | (_ & _ & I')].
    + rewrite E. now exists l, u, a.
    + destruct (get_buf _ _ s) as [[p o] s']. now exists (l + 1), u, a.
  - now exists l, u, a.
  - now exists l, u, a.
  - exists l, u, a. now apply (core_inv_frame l u a s).
  - exists l, u, a. unfold kick_available.
    destruct (negb _); [assumption |]. now apply (core_inv_frame l u a s).
  - now exists l, u, a.
  - exists l, u, a. now apply (core_inv_frame l u a s).
  - now exists l, u, a.
  - destruct (use_buf_core l u a s no_outs I) as [(_ & _ & I') | (_ & _ & I')];
      destruct (use_buf _ _ s) as [[b o] s'].
    + now exists l, u, a.
    + now exists l, (u + 1), a.
  - exists l, u, a. unfold call_used.
    destruct (negb _); [assumption |]. now apply (core_inv_frame l u a s).
Qed.

Lemma run_core cs : forall l u a s,
  core_inv N l u a s ->
  well_driven N cs s = true ->
  exists l' u' a', core_inv N l' u' a' (snd (run N cs s)).
Proof.
  induction cs as [| c cs IH]; intros l u a s I Hw; cbn [run].
  - now exists l, u, a.
  - cbn [well_driven] in Hw. apply andb_true_iff in Hw as [Hc Hw].
    destruct (exec_core l u a s c I) as (l1 & u1 & a1 & I1).
    { intros ->. now apply Z.ltb_lt in Hc. }
    destruct (exec N c s) as [r s1]. cbn [snd] in *.
    destruct (IH l1 u1 a1 s1 I1 Hw) as (l2 & u2 & a2 & I2).
    destruct (run N cs s1) as [tr s2]. now exists l2, u2, a2.
Qed.

End Conservation.

(** ** Slot identifiers *)

Lemma fmap_index_ring_set r i d :
  index d = index (ring_at r i) -> index <$> ring_set r i d = index <$> r.
Proof.
  intros Hd. unfold ring_set, ring_at in *. rewrite list_fmap_insert.
  destruct (r !! Z.to_nat i) as [d0 |] eqn:Hl.
  - apply list_insert_id. rewrite list_lookup_fmap, Hl. simpl in *. now rewrite Hd.
  - apply list_insert_ge. rewrite length_fmap. now apply lookup_ge_None.
Qed.

(** No call of ring.c writes the [index] field of a descriptor. *)
Lemma exec_index N c s : index <$> ring (snd (exec N c s)) = index <$> ring s.
Proof.
  destruct c; cbn [exec]; try reflexivity.
  - unfold add_inbuf. destruct (num_free (guest s) =? 0); [reflexivity |].
    cbn [snd ring]. now rewrite !fmap_index_ring_set.
  - unfold get_buf. now destruct (negb _).
  - unfold kick_available. now destruct (negb _).
  - unfold use_buf. cbn [ring set_host].
    destruct (Z.land _ DESC_HW =? 0); [reflexivity |].
    destruct (negb _); [reflexivity |].
    cbn [snd ring set_host set_ring]. now rewrite !fmap_index_ring_set.
  - unfold call_used. now destruct (negb _).
Qed.

Lemma run_index N cs : forall s,
  index <$> ring (snd (run N cs s)) = index <$> ring s.
Proof.
  induction cs as [| c cs IH]; intros s; cbn [run]; [reflexivity |].
  pose proof (exec_index N c s) as He.
  destruct (exec N c s) as [r s1]. specialize (IH s1).
  destruct (run N cs s1) as [tr s2]. cbn [snd] in *. congruence.
Qed.

Lemma index_init N : 0 <= N <= 65536 -> index <$> ring (init N) = seqZ 0 N.
Proof.
  intros HN. rewrite ring_init. apply list_eq. intros i.
  rewrite !list_lookup_fmap.
  destruct (seqZ 0 N !! i) as [j |] eqn:Hj; [| reflexivity].
  apply lookup_seqZ in Hj as [-> Hi]. simpl. f_equal. apply u16_small. lia.
Qed.

Lemma index_at (N : Z) (r : list desc) i :
  index <$> r = seqZ 0 N -> 0 <= i < N -> index (ring_at r i) = i.
Proof.
  intros Hr Hi. unfold ring_at.
  assert (H : (index <$> r) !! Z.to_nat i = Some i).
  { rewrite Hr. rewrite lookup_seqZ_lt by lia. f_equal. lia. }
  rewrite list_lookup_fmap in H.
  destruct (r !! Z.to_nat i) as [d |]; [now inversion H | discriminate].
Qed.

(** ** The shadow table as a queue *)

Lemma use_buf_data N o s : data (snd (use_buf N o s)) = data s.
Proof. unfold use_buf. case_ifs; reflexivity. Qed.

Section Fifo.

Variables k N : Z.
Hypothesis Hk : 0 <= k <= 16.
Hypothesis HN : N = 2 ^ k.

Local Lemma Hk31 : 0 <= k <= 31.
Proof. lia. Qed.

Local Lemma N_le_16 : 0 <= N <= 65536.
Proof.
  pose proof (N_pos k N Hk31 HN). split; [lia |].
  subst N. change 65536 with (2 ^ 16). apply Z.pow_le_mono_r; lia.
Qed.

Lemma fifo_inv_init : fifo_inv N [] 0 0 (init N).
Proof.
  split.
  - exact (core_inv_init k N Hk31 HN).
  - constructor.
    + rewrite data_init, length_replicate. pose proof N_le_16. lia.
    + apply index_init, N_le_16.
    + intros i tag H. discriminate.
Qed.

Lemma slot_index q l u s j :
  fifo_inv N q l u s -> index (ring_at (ring s) (j mod N)) = j mod N.
Proof.
  intros [_ Sh]. apply (index_at N); [apply Sh | apply (mod_N_range k N Hk31 HN)].
Qed.

Lemma data_in_range q l s j :
  shadow_inv N q l s -> (Z.to_nat (j mod N) < length (data s))%nat.
Proof.
  intros Sh. pose proof (si_len _ _ _ _ Sh). pose proof (mod_N_range k N Hk31 HN j). lia.
Qed.

Lemma add_inbuf_fifo q l u s len_ b d f :
  fifo_inv N q l u s ->
  add_inbuf N len_ b d f s = (-1, s)
  \/ (fst (add_inbuf N len_ b d f s) = 0
      /\ fifo_inv N (q ++ [d]) l u (snd (add_inbuf N len_ b d f s))).
Proof.
  intros F. pose proof F as [I Sh]. set (a := l + Z.of_nat (length q)) in *.
  destruct (add_inbuf_core k N Hk31 HN l u a s len_ b d f I)
    as [[_ E] | (Hlt & Hz & I')]; [now left | right].
  split; [assumption |].
  destruct (ci_order _ _ _ _ _ I) as (Hl & Hlu & Hua & Hal).
  pose proof (exec_index N (AddInbuf len_ b d f) s) as Hidx. cbn [exec] in Hidx.
  assert (Hhead : slot_of N (avail_idx (guest s)) = a mod N)
    by now rewrite (ci_avail _ _ _ _ _ I), (slot_of_u32 k N Hk31 HN).
  assert (Hdata : data (snd (add_inbuf N len_ b d f s))
                  = data_set (data s) (a mod N) (mk_data b d)).
  { rewrite add_inbuf_ok;
      [| rewrite (ci_free _ _ _ _ _ I); lia
       | rewrite Hhead; now apply (slot_in_range k N Hk31 HN l u a)].
    cbn [snd data]. now rewrite Hhead, (slot_index q l u s a F). }
  destruct (add_inbuf N len_ b d f s) as [z s']. cbn [snd fst] in *.
  split.
  - replace (l + Z.of_nat (length (q ++ [d]))) with (a + 1)
      by (rewrite length_app; simpl; lia).
    exact I'.
  - constructor.
    + rewrite Hdata, length_data_set. apply Sh.
    + rewrite Hidx. apply Sh.
    + intros i tag Hi. rewrite Hdata.
      destruct (lookup_app_Some q [d] i tag) as [Happ _].
      destruct (Happ Hi) as [Hq | [Hge Hd]].
      * pose proof (lookup_lt_Some _ _ _ Hq) as Hlen.
        rewrite data_at_set_ne; [now apply Sh |].
        apply (slot_ne k N Hk31 HN). intros E.
        apply (window_inj k N Hk31 HN l) in E; lia.
      * destruct (i - length q)%nat as [| n] eqn:Hn; [| destruct n; discriminate].
        inversion Hd; subst tag.
        replace (l + Z.of_nat i) with a by lia.
        rewrite data_at_set_eq by now apply (data_in_range q l).
        reflexivity.
Qed.

Lemma get_buf_fifo q l u s o :
  fifo_inv N q l u s -> num_free (guest s) < N ->
  get_buf N o s = (0, o, s)
  \/ (exists tag q', q = tag :: q'
        /\ fst (fst (get_buf N o s)) = tag
        /\ fifo_inv N q' (l + 1) u (snd (get_buf N o s))).
Proof.
  intros F Hnf. pose proof F as [I Sh]. set (a := l + Z.of_nat (length q)) in *.
  assert (Hla : l < a) by (rewrite (ci_free _ _ _ _ _ I) in Hnf; lia).
  destruct (get_buf_core k N Hk31 HN l u a s o I Hla)
    as [[_ E] | (Hlu & Hhw & I')]; [now left | right].
  destruct q as [| tag q']; [simpl in a; lia |].
  exists tag, q'. split; [reflexivity |].
  assert (Hhead : slot_of N (last_used_idx (guest s)) = l mod N)
    by now rewrite (ci_last _ _ _ _ _ I), (slot_of_u32 k N Hk31 HN).
  assert (Hi : Z.land (index (ring_at (ring s) (l mod N))) (u32 (N - 1)) = l mod N).
  { rewrite (slot_index _ l u s l F), Z.land_comm.
    change (Z.land (u32 (N - 1)) (l mod N)) with (slot_of N (l mod N)).
    rewrite (slot_of_mod k N Hk31 HN). apply Z.mod_mod.
    pose proof (N_pos k N Hk31 HN). lia. }
  rewrite get_buf_ok in I' |- * by now rewrite Hhead.
  rewrite Hhead, Hi in I' |- *. cbn [fst snd] in *.
  split.
  - replace (l mod N) with ((l + Z.of_nat 0) mod N) by (f_equal; lia).
    now apply Sh.
  - split.
    + replace (l + 1 + Z.of_nat (length q')) with a
        by (subst a; simpl length; lia).
      exact I'.
    + constructor; cbn [data ring].
      * rewrite length_data_set. apply Sh.
      * apply Sh.
      * intros i t Ht.
        assert (Hlen : (i < length q')%nat) by now apply lookup_lt_Some in Ht.
        simpl in a.
        destruct (ci_order _ _ _ _ _ I) as (Hl & _ & _ & Hal).
        rewrite data_at_set_ne.
        -- replace (l + 1 + Z.of_nat i) with (l + Z.of_nat (S i)) by lia.
           now apply Sh.
        -- apply (slot_ne k N Hk31 HN). intros E.
           apply (window_inj k N Hk31 HN l) in E; lia.
Qed.

Lemma fifo_inv_frame q l u s s' :
  fifo_inv N q l u s ->
  ring s' = ring s -> data s' = data s ->
  g_wrap (guest s') = g_wrap (guest s) ->
  avail_idx (guest s') = avail_idx (guest s) ->
  last_used_idx (guest s') = last_used_idx (guest s) ->
  num_free (guest s') = num_free (guest s) ->
  h_wrap (host s') = h_wrap (host s) ->
  used_idx (host s') = used_idx (host s) ->
  fifo_inv N q l u s'.
Proof.
  intros [I Sh] Hr Hd Hgw Ha Hlu Hnf Hhw Hu. split.
  - now apply (core_inv_frame N l u _ s).
  - constructor; rewrite ?Hr, ?Hd; apply Sh.
Qed.

Lemma use_buf_fifo q l u s o :
  fifo_inv N q l u s -> exists u', fifo_inv N q l u' (snd (use_buf N o s)).
Proof.
  intros [I Sh].
  pose proof (use_buf_data N o s) as Hdata.
  assert (Hsh : forall s', index <$> ring s' = index <$> ring s ->
                      data s' = data s -> shadow_inv N q l s').
  { intros s' Hr Hd. constructor; rewrite ?Hr, ?Hd; apply Sh. }
  assert (Hidx' : index <$> ring (snd (use_buf N o s)) = index <$> ring s).
  { destruct (use_buf N o s) as [[b' o'] s'] eqn:E.
    cbn [snd]. clear Hdata.
    unfold use_buf in E. cbn [ring set_host] in E.
    destruct (Z.land _ DESC_HW =? 0); [now inversion E |].
    destruct (negb _); [now inversion E |].
    inversion E. cbn [ring set_host set_ring].
    now rewrite !fmap_index_ring_set. }
  destruct (use_buf_core k N Hk31 HN l u _ s o I) as [(_ & _ & I') | (_ & _ & I')].
  - exists u. split; [exact I' | now apply Hsh].
  - exists (u + 1). split; [exact I' | now apply Hsh].
Qed.

(** One call of a well-driven harness: the tags it adds join the queue at
    its tail, the tag it reclaims leaves the queue at its head. *)
Lemma exec_fifo q l u s c :
  fifo_inv N q l u s ->
  (c = GetBuf -> num_free (guest s) < N) ->
  exists q' l' u' done,
    fifo_inv N q' l' u' (snd (exec N c s))
    /\ q ++ tags_published [(c, fst (exec N c s))] = done ++ q'
    /\ tags_reclaimed [(c, fst (exec N c s))] = List.filter nonnull done.
Proof.
  intros F Hdrv. destruct c; cbn [exec].
  - destruct (add_inbuf_fifo q l u s len_ buf datap flags_ F) as [E | [Hz F']].
    + rewrite E. exists q, l, u, []. cbn. now rewrite app_nil_r.
    + destruct (add_inbuf N len_ buf datap flags_ s) as [z s'].
      cbn [fst snd] in *. subst z. exists (q ++ [datap]), l, u, []. now cbn.
  - destruct (get_buf_fifo q l u s no_outs F (Hdrv eq_refl))
      as [E | (tag & q' & -> & Ht & F')].
    + rewrite E. exists q, l, u, []. cbn. now rewrite app_nil_r.
    + destruct (get_buf N no_outs s) as [[p o] s']. cbn [fst snd] in *. subst p.
      exists q', (l + 1), u, [tag]. split; [assumption |]. cbn.
      split; [now rewrite app_nil_r |]. unfold nonnull.
      now destruct (tag =? 0).
  - exists q, l, u, []. cbn. now rewrite app_nil_r.
  - exists q, l, u, []. cbn. now rewrite app_nil_r.
  - exists q, l, u, []. cbn. rewrite app_nil_r.
    split; [now apply (fifo_inv_frame q l u s) | easy].
  - exists q, l, u, []. cbn. rewrite app_nil_r. split; [| easy].
    unfold kick_available. destruct (negb _); [assumption |].
    now apply (fifo_inv_frame q l u s).
  - exists q, l, u, []. cbn. now rewrite app_nil_r.
  - exists q, l, u, []. cbn. rewrite app_nil_r.
    split; [now apply (fifo_inv_frame q l u s) | easy].
  - exists q, l, u, []. cbn. now rewrite app_nil_r.
  - destruct (use_buf_fifo q l u s no_outs F) as [u' F'].
    destruct (use_buf N no_outs s) as [[b o] s']. cbn [fst snd] in *.
    exists q, l, u', []. cbn. now rewrite app_nil_r.
  - exists q, l, u, []. cbn. rewrite app_nil_r. split; [| easy].
    unfold call_used. destruct (negb _); [assumption |].
    now apply (fifo_inv_frame q l u s).
Qed.

Lemma tags_published_cons x tr :
  tags_published (x :: tr) = tags_published [x] ++ tags_published tr.
Proof.
  destruct x as [c r]. destruct c; try reflexivity.
  destruct r; try reflexivity. destruct z as [| [] | ]; reflexivity.
Qed.

Lemma tags_reclaimed_cons x tr :
  tags_reclaimed (x :: tr) = tags_reclaimed [x] ++ tags_reclaimed tr.
Proof.
  destruct x as [c r]. destruct c; try reflexivity.
  destruct r; try reflexivity. cbn. now destruct (p =? 0).
Qed.

Lemma run_fifo cs : forall q l u s,
  fifo_inv N q l u s ->
  well_driven N cs s = true ->
  exists q' l' u' done,
    fifo_inv N q' l' u' (snd (run N cs s))
    /\ q ++ tags_published (fst (run N cs s)) = done ++ q'
    /\ tags_reclaimed (fst (run N cs s)) = List.filter nonnull done.
Proof.
  induction cs as [| c cs IH]; intros q l u s F Hw; cbn [run].
  - exists q, l, u, []. cbn. now rewrite app_nil_r.
  - cbn [well_driven] in Hw. apply andb_true_iff in Hw as [Hc Hw].
    destruct (exec_fifo q l u s c F) as (q1 & l1 & u1 & d1 & F1 & Hp1 & Hr1).
    { intros ->. now apply Z.ltb_lt in Hc. }
    destruct (exec N c s) as [r s1]. cbn [fst snd] in *.
    destruct (IH q1 l1 u1 s1 F1 Hw) as (q2 & l2 & u2 & d2 & F2 & Hp2 & Hr2).
    destruct (run N cs s1) as [tr s2]. cbn [fst snd] in *.
    exists q2, l2, u2, (d1 ++ d2). split; [assumption |]. split.
    + rewrite tags_published_cons, app_assoc, Hp1, <- app_assoc, Hp2.
      now rewrite app_assoc.
    + rewrite tags_reclaimed_cons, Hr1, Hr2. symmetry. apply List.filter_app.
Qed.

End Fifo.

(** ** Order of reclaimed tags *)

Lemma filter_nonnull_all l :
  Forall (fun p => p <> 0) l -> List.filter nonnull l = l.
Proof.
  induction 1 as [| p l Hp _ IH]; simpl; [reflexivity |].
  unfold nonnull at 1. replace (p =? 0) with false
    by (symmetry; now apply Z.eqb_neq).
  simpl. now rewrite IH.
Qed.

(** C3 (as amended).  For a ring of [2^k] entries, [k <= 16], and every
    interleaving of calls in which [get_buf] is called only while a
    buffer is outstanding: the non-NULL pointers [get_buf] returns are,
    in order, the non-NULL tags among the first [n] tags added, for some
    [n]; when no NULL tag is added they are a prefix of the tags added. *)
Theorem reclaim_in_publish_order (k N : Z) (cs : list call) :
  0 <= k <= 16 -> N = 2 ^ k ->
  well_driven N cs (init N) = true ->
  let tr := fst (run N cs (init N)) in
  (exists n, tags_reclaimed tr = List.filter nonnull (take n (tags_published tr)))
  /\ (Forall (fun p => p <> 0) (tags_published tr) ->
      tags_reclaimed tr `prefix_of` tags_published tr).
Proof.
  intros Hk HN Hw tr.
  destruct (run_fifo k N Hk HN cs [] 0 0 (init N) (fifo_inv_init k N Hk HN) Hw)
    as (q & l & u & done & _ & Hp & Hr).
  fold tr in Hp, Hr. cbn [app] in Hp. split.
  - exists (length done). now rewrite Hp, take_app_length.
  - intros Hnn. exists q. rewrite Hr, Hp. f_equal. symmetry.
    apply filter_nonnull_all. rewrite Hp in Hnn.
    now apply Forall_app in Hnn as [? _].
Qed.

(** C3 (as stated) fails: [get_buf] does not tell a slot the host has
    completed from a slot that was never added.  On a ring of two
    entries, a [get_buf] before the first [add_inbuf] moves the read
    cursor past slot 0; the two buffers added next are then reclaimed in
    the opposite order, although [add_inbuf] never met a full ring. *)
Lemma reclaim_out_of_order :
  never_full 2 early_get_buf (init 2) = true
  /\ tags_published (fst (run 2 early_get_buf (init 2))) = [1001; 1002]
  /\ tags_reclaimed (fst (run 2 early_get_buf (init 2))) = [1002; 1001].
Proof. vm_compute. repeat split; reflexivity. Qed.

(** ** Capacity *)

(** C4 (as amended).  For a ring of [2^k] entries and every state reached
    by calls among which [get_buf] is called only while a buffer is
    outstanding: [num_free], plus the number of slots owned by the host
    ([DESC_HW] set), plus the number of buffers completed and not yet
    reclaimed, is the ring size; and [add_inbuf] returns -1 exactly when
    [num_free] is 0, leaving the state as it was, and 0 otherwise. *)
Theorem capacity_conserved (k N : Z) (cs : list call) :
  0 <= k <= 31 -> N = 2 ^ k ->
  well_driven N cs (init N) = true ->
  let s := snd (run N cs (init N)) in
  num_free (guest s) + hw_count (ring s) + completed_unreclaimed s = N
  /\ (forall len_ b d f,
         (fst (add_inbuf N len_ b d f s) = -1 <-> num_free (guest s) = 0)
         /\ (fst (add_inbuf N len_ b d f s) = 0 <-> num_free (guest s) <> 0)
         /\ (num_free (guest s) = 0 -> add_inbuf N len_ b d f s = (-1, s))).
Proof.
  intros Hk HN Hw s.
  destruct (run_core k N Hk HN cs 0 0 0 (init N) (core_inv_init k N Hk HN) Hw)
    as (l & u & a & I). fold s in I.
  split.
  - destruct (ci_order _ _ _ _ _ I) as (Hl & Hlu & Hua & Hal).
    pose proof (N_le k N Hk HN). change (2 ^ 31) with 2147483648 in *.
    unfold completed_unreclaimed.
    rewrite (ci_free _ _ _ _ _ I), (ci_count _ _ _ _ _ I),
      (ci_used _ _ _ _ _ I), (ci_last _ _ _ _ _ I).
    replace (u32 (u32 u - u32 l)) with (u - l) by modarith. lia.
  - intros len_ b d f. unfold add_inbuf.
    destruct (Z.eqb_spec (num_free (guest s)) 0) as [E | E]; cbn [fst];
      repeat split; intros; try reflexivity; try assumption; try lia;
        try discriminate; try contradiction.
Qed.

(** C4 (as stated) fails: [num_free] grows when the guest reclaims a
    buffer, not when the host completes it.  After one [add_inbuf] and
    one [use_buf] on a ring of four entries, [num_free] is 3 and no slot
    is owned by the host.  And a [get_buf] on the initial ring raises
    [num_free] to 5. *)
Lemma capacity_not_conserved :
  (num_free (guest (snd (run 4 [AddInbuf 1 500 1001 0; UseBuf] (init 4)))) = 3
   /\ hw_count (ring (snd (run 4 [AddInbuf 1 500 1001 0; UseBuf] (init 4)))) = 0)
  /\ (num_free (guest (snd (run 4 [GetBuf] (init 4)))) = 5
      /\ hw_count (ring (snd (run 4 [GetBuf] (init 4)))) = 0).
Proof. vm_compute. repeat split; reflexivity. Qed.

(** ** Calls that report full or empty *)

Lemma set_host_same s : set_host s (host s) = s.
Proof. now destruct s. Qed.

(** Away from slot 0, a [use_buf] that returns false changes nothing. *)
Lemma use_buf_false_unchanged N o s :
  fst (fst (use_buf N o s)) = false ->
  slot_of N (used_idx (host s)) <> 0 ->
  use_buf N o s = (false, o, s).
Proof.
  intros Hf Hh. unfold use_buf in *. apply Z.eqb_neq in Hh. rewrite Hh in *.
  rewrite set_host_same in *.
  destruct (Z.land _ DESC_HW =? 0); [reflexivity |].
  destruct (negb _); [reflexivity | discriminate].
Qed.

(** C7 (as amended).  [add_inbuf] returning non-zero returns -1 and leaves
    the state as it was; [get_buf] leaves the state and the caller's
    variables as they were when the slot at the read cursor has [DESC_HW]
    set, and, in a state reached by a well-driven harness that added no
    NULL tag and has a buffer outstanding, whenever it returns NULL;
    [use_buf] returning false leaves them as they were when the claim
    cursor is not at slot 0. *)
Theorem failed_calls_change_nothing (k N : Z) (cs : list call) (o : outs) :
  0 <= k <= 16 -> N = 2 ^ k ->
  well_driven N cs (init N) = true ->
  Forall (fun p => p <> 0) (tags_published (fst (run N cs (init N)))) ->
  let s := snd (run N cs (init N)) in
  (forall s0 len_ b d f,
      fst (add_inbuf N len_ b d f s0) <> 0 ->
      add_inbuf N len_ b d f s0 = (-1, s0))
  /\ (forall s0,
         hw_set (ring_at (ring s0) (slot_of N (last_used_idx (guest s0)))) = true ->
         get_buf N o s0 = (0, o, s0))
  /\ (num_free (guest s) < N ->
      fst (fst (get_buf N o s)) = 0 -> get_buf N o s = (0, o, s))
  /\ (forall s0,
         fst (fst (use_buf N o s0)) = false ->
         slot_of N (used_idx (host s0)) <> 0 ->
         use_buf N o s0 = (false, o, s0)).
Proof.
  intros Hk HN Hw Hnn s. split; [| split; [| split]].
  - intros s0 len_ b d f. unfold add_inbuf.
    destruct (num_free (guest s0) =? 0); cbn [fst]; [reflexivity | congruence].
  - intros s0. apply get_buf_busy.
  - intros Hnf Hz.
    destruct (run_fifo k N Hk HN cs [] 0 0 (init N) (fifo_inv_init k N Hk HN) Hw)
      as (q & l & u & done & F & Hp & _).
    fold s in F. cbn [app] in Hp.
    destruct (get_buf_fifo k N Hk HN q l u s o F Hnf)
      as [E | (tag & q' & -> & Ht & _)]; [exact E |].
    exfalso. rewrite Hp in Hnn. apply Forall_app in Hnn as [_ Hq].
    inversion Hq as [| ? ? Htag _]; subst. apply Htag. congruence.
  - intros s0. apply use_buf_false_unchanged.
Qed.

(** C7 (as stated) fails on the initial ring of four entries: [get_buf]
    returns NULL and has raised [num_free] and moved the read cursor;
    [use_buf] returns false and has toggled the host's [wrap]. *)
Lemma failed_calls_change_state :
  (fst (fst (get_buf 4 no_outs (init 4))) = 0
   /\ num_free (guest (init 4)) = 4
   /\ num_free (guest (snd (get_buf 4 no_outs (init 4)))) = 5
   /\ last_used_idx (guest (init 4)) = 0
   /\ last_used_idx (guest (snd (get_buf 4 no_outs (init 4)))) = 1)
  /\ (fst (fst (use_buf 4 no_outs (init 4))) = false
      /\ h_wrap (host (init 4)) = 0x40
      /\ h_wrap (host (snd (use_buf 4 no_outs (init 4)))) = 0).
Proof. vm_compute. repeat split; reflexivity. Qed.

(** ** Slot identifiers in reachable states *)

(** C10 (as amended).  No call writes the [index] field of a descriptor;
    so for a ring of [2^k] entries, [k <= 16], in every state reached
    from the initial one the descriptor at position [i] has identifier
    [i], and the shadow entries [get_buf] and [add_inbuf] consult are
    those of the slot at their cursor. *)
Theorem slot_identifiers_stable (k N : Z) (cs : list call) :
  0 <= k <= 16 -> N = 2 ^ k ->
  let s := snd (run N cs (init N)) in
  (forall c s0, index <$> ring (snd (exec N c s0)) = index <$> ring s0)
  /\ (forall i, 0 <= i < N -> index (ring_at (ring s) i) = i)
  /\ (let head := slot_of N (last_used_idx (guest s)) in
      Z.land (index (ring_at (ring s) head)) (u32 (N - 1)) = head)
  /\ (let head := slot_of N (avail_idx (guest s)) in
      index (ring_at (ring s) head) = head).
Proof.
  intros Hk HN s.
  assert (Hk31 : 0 <= k <= 31) by lia.
  assert (HN16 : 0 <= N <= 65536).
  { pose proof (N_pos k N Hk31 HN). split; [lia |].
    subst N. change 65536 with (2 ^ 16). apply Z.pow_le_mono_r; lia. }
  assert (Hidx : index <$> ring s = seqZ 0 N).
  { unfold s. rewrite run_index. now apply index_init. }
  split; [intros c s0; apply exec_index |].
  split; [intros i Hi; now apply (index_at N) |].
  split.
  - intros head. unfold head. rewrite (slot_of_mod k N Hk31 HN).
    rewrite (index_at N) by (try assumption; apply (mod_N_range k N Hk31 HN)).
    rewrite Z.land_comm.
    change (Z.land (u32 (N - 1)) ?x) with (slot_of N x).
    rewrite (slot_of_mod k N Hk31 HN). apply Z.mod_mod. lia.
  - intros head. unfold head. rewrite (slot_of_mod k N Hk31 HN).
    apply (index_at N); [assumption | apply (mod_N_range k N Hk31 HN)].
Qed.

(** C10 (as stated) fails for a ring of 2^17 entries: in the initial
    state, reached by the empty sequence of calls, the descriptor at
    position 65536 has identifier 0. *)
Lemma slot_identifier_not_position :
  index (ring_at (ring (snd (run 131072 [] (init 131072)))) 65536) = 0
  /\ index (ring_at (ring (snd (run 131072 [] (init 131072)))) 65536) <> 65536.
Proof.
  cbn [run snd]. rewrite ring_at_init by lia. cbn [index].
  change (u16 65536) with 0. split; [reflexivity | lia].
Qed.

(** ** Generations *)

(** The guest's [wrap] after the first [n] buffers of a fresh ring, for
    [1 <= n <= N]: it has left its initial value 0x40 once, at the first
    [add_inbuf], and holds 0 throughout the first lap. *)
Lemma guest_wrap_first_lap (k N : Z) (cs : list call) :
  0 <= k <= 31 -> N = 2 ^ k ->
  Forall (fun c => exists l b d f, c = AddInbuf l b d f) cs ->
  0 < Z.of_nat (length cs) <= N ->
  Forall (fun x => snd x = RInt 0) (fst (run N cs (init N)))
  /\ g_wrap (guest (init N)) = 0x40
  /\ g_wrap (guest (snd (run N cs (init N)))) = 0.
Proof.
  intros Hk HN Hcs Hlen.
  assert (Hgen : forall cs a s,
             Forall (fun c => exists l b d f, c = AddInbuf l b d f) cs ->
             core_inv N 0 0 a s -> a + Z.of_nat (length cs) <= N ->
             Forall (fun x => snd x = RInt 0) (fst (run N cs s))
             /\ core_inv N 0 0 (a + Z.of_nat (length cs)) (snd (run N cs s))).
  { clear cs Hcs Hlen. induction cs as [| c cs IH]; intros a s Hcs I Hle.
    - cbn. split; [constructor |]. now rewrite Z.add_0_r.
    - apply Forall_cons in Hcs as [(l & b & d & f & ->) Hcs'].
      cbn [length] in Hle. cbn [run exec].
      destruct (add_inbuf_core k N Hk HN 0 0 a s l b d f I)
        as [[Hfull _] | (_ & Hz & I')]; [lia |].
      destruct (add_inbuf N l b d f s) as [z s1]. cbn [fst snd] in *. subst z.
      destruct (IH (a + 1) s1 Hcs' I' ltac:(lia)) as [Hall I2].
      destruct (run N cs s1) as [tr s2]. cbn [fst snd] in *.
      split; [constructor; [reflexivity | assumption] |].
      replace (a + Z.of_nat (length (AddInbuf l b d f :: cs)))
        with (a + 1 + Z.of_nat (length cs)) by (cbn [length]; lia).
      exact I2. }
  destruct (Hgen cs 0 (init N) Hcs (core_inv_init k N Hk HN) ltac:(lia)) as [Hall I].
  split; [assumption |]. split; [reflexivity |].
  rewrite (ci_gwrap _ _ _ _ _ I).
  replace (0 + Z.of_nat (length cs) =? 0) with false
    by (symmetry; apply Z.eqb_neq; lia).
  unfold lap_wrap. rewrite Z.div_small by lia. reflexivity.
Qed.

(** A buffer the host owns is completed by the second [use_buf] at the
    latest: a [use_buf] that returns false although a buffer is pending
    has toggled the host's [wrap] at slot 0, and the next one toggles it
    back. *)
Lemma use_buf_retry (k N l u a : Z) (s : state) (o : outs) :
  0 <= k <= 31 -> N = 2 ^ k ->
  core_inv N l u a s -> u < a ->
  fst (fst (use_buf N o s)) = false ->
  u mod N = 0
  /\ fst (fst (use_buf N o (snd (use_buf N o s)))) = true.
Proof.
  intros Hk HN I Hlt Hf.
  destruct (use_buf_core k N Hk HN l u a s o I) as [(E & Hc & I1) | (Ht & _)];
    [| congruence].
  destruct Hc as [Hc | Hm]; [lia |]. split; [assumption |].
  rewrite E in I1 |- *. cbn [snd] in *.
  set (s1 := set_host s (set_h_wrap (host s) (polled_wrap N s))) in *.
  destruct (use_buf_core k N Hk HN l u a s1 o I1) as [(E1 & _ & _) | (Ht & _)];
    [exfalso | assumption].
  assert (Hhead : slot_of N (used_idx (host s)) = u mod N)
    by now rewrite (ci_used _ _ _ _ _ I), (slot_of_u32 k N Hk HN).
  destruct (slot_at_used k N Hk HN l u a s I) as [Hpend _].
  specialize (Hpend Hlt).
  destruct (flags_of_wrap _ (lap_wrap_cases N u)) as (_ & Hhw & Hwr & _).
  destruct (ci_hwrap _ _ _ _ _ I) as [Hh _].
  destruct (flags_of_wrap _ Hh) as (_ & _ & _ & _ & _ & Htg & Hne).
  assert (Hp : polled_wrap N s = toggle_wrap (h_wrap (host s))).
  { unfold polled_wrap. now rewrite Hhead, Hm. }
  assert (Hp1 : polled_wrap N s1 = h_wrap (host s)).
  { unfold polled_wrap. subst s1. cbn [host set_host used_idx set_h_wrap h_wrap].
    rewrite Hhead, Hm, Hp. cbn [Z.eqb].
    destruct Hh as [-> | ->]; reflexivity. }
  assert (Hmis : lap_wrap N u <> polled_wrap N s).
  { intros Heq.
    rewrite use_buf_ok in E;
      [discriminate
      | rewrite Hhead; unfold hw_set; now rewrite Hpend, Hhw
      | rewrite Hhead, Hpend, Hwr; exact Heq]. }
  assert (Hlap : lap_wrap N u = h_wrap (host s)).
  { rewrite Hp in Hmis.
    destruct (lap_wrap_cases N u) as [Hl | Hl]; destruct Hh as [Hh | Hh];
      rewrite Hl, Hh in *; try reflexivity; exfalso; apply Hmis; reflexivity. }
  rewrite use_buf_ok in E1;
    [discriminate
    | subst s1; cbn [host set_host used_idx set_h_wrap ring];
      rewrite Hhead; unfold hw_set; now rewrite Hpend, Hhw
    | rewrite Hp1; subst s1; cbn [host set_host used_idx set_h_wrap ring];
      now rewrite Hhead, Hpend, Hwr].
Qed.

(** C5.  On a ring of four entries the host polls the empty ring once,
    the guest then adds a buffer in slot 0, and the host's next [use_buf]
    still returns false although the slot has [DESC_HW] set and carries
    the guest's current [wrap]: the failed poll at slot 0 toggled the
    host's [wrap], and the poll that follows toggles it again.  Without
    the first poll the same buffer is completed at once. *)
Theorem fresh_slot_reported_empty :
  fst (run 4 poll_then_add (init 4))
  = [(UseBuf, RUse false no_outs); (AddInbuf 1 500 1001 0, RInt 0)]
  /\ flags (ring_at (ring (snd (run 4 poll_then_add (init 4)))) 0)
     = Z.lor DESC_HW (g_wrap (guest (snd (run 4 poll_then_add (init 4)))))
  /\ fst (fst (use_buf 4 no_outs (snd (run 4 poll_then_add (init 4))))) = false
  /\ fst (run 4 [AddInbuf 1 500 1001 0; UseBuf] (init 4))
     = [(AddInbuf 1 500 1001 0, RInt 0); (UseBuf, RUse true (mk_outs 0 0 0x80))].
Proof. vm_compute. repeat split; reflexivity. Qed.

(** * Instances

    Each statement above that carries hypotheses, applied to a concrete
    ring. *)

Lemma need_event_telescopes_witness :
  need_event 5 (final_index 3 [4; 2; 1]) 3
  = existsb id (advance_checks 5 3 [4; 2; 1])
  /\ need_event 5 (final_index 3 [4; 2; 1]) 3 = true
  /\ fired (advance_checks 5 3 [4; 2; 1]) = 1%nat
  /\ signals (advance_and_kick [4; 2; 1] demo_armed) = [Kick].
Proof.
  destruct (need_event_telescopes 5 3 [4; 2; 1] demo_armed)
    as (H1 & _ & _ & H4 & H5 & H6).
  - repeat constructor; lia.
  - reflexivity.
  - split; [exact H1 | split; [exact H4 | split; [exact H5 | exact (H6 eq_refl)]]].
Defined.

Lemma reclaim_in_publish_order_witness :
  tags_reclaimed (fst (run 4 demo_calls (init 4)))
  `prefix_of` tags_published (fst (run 4 demo_calls (init 4))).
Proof.
  refine (proj2 (reclaim_in_publish_order 2 4 demo_calls _ _ _) _).
  - lia.
  - reflexivity.
  - reflexivity.
  - vm_compute. repeat constructor; discriminate.
Defined.

Lemma capacity_conserved_witness :
  num_free (guest (snd (run 4 demo_calls (init 4))))
  + hw_count (ring (snd (run 4 demo_calls (init 4))))
  + completed_unreclaimed (snd (run 4 demo_calls (init 4))) = 4.
Proof.
  refine (proj1 (capacity_conserved 2 4 demo_calls _ _ _)).
  - lia.
  - reflexivity.
  - reflexivity.
Defined.

Lemma use_buf_completes_witness :
  snd (fst (use_buf 4 (mk_outs 77 88 99) demo_added))
  = mk_outs 77 88 (flags (ring_at (ring demo_added) 0)).
Proof.
  refine (proj1 (use_buf_completes 4 (mk_outs 77 88 99)
                   (snd (fst (use_buf 4 (mk_outs 77 88 99) demo_added)))
                   demo_added
                   (snd (use_buf 4 (mk_outs 77 88 99) demo_added)) _)).
  reflexivity.
Defined.

Lemma failed_calls_change_nothing_witness :
  get_buf 4 no_outs (snd (run 4 [AddInbuf 1 500 1001 0] (init 4)))
  = (0, no_outs, snd (run 4 [AddInbuf 1 500 1001 0] (init 4))).
Proof.
  refine (proj1 (proj2 (proj2
            (failed_calls_change_nothing 2 4 [AddInbuf 1 500 1001 0] no_outs
               _ _ _ _))) _ _).
  - lia.
  - reflexivity.
  - reflexivity.
  - vm_compute. repeat constructor; discriminate.
  - reflexivity.
  - reflexivity.
Defined.

Lemma alloc_ring_post_witness :
  num_free (guest (init 4)) = 4
  /\ g_wrap (guest (init 4)) = 0x40 /\ h_wrap (host (init 4)) = 0x40.
Proof.
  assert (H : 0 <= 4 <= 2 ^ 16) by (change (2 ^ 16) with 65536; lia).
  exact (proj2 (proj2 (proj2 (proj2 (proj2 (proj2 (proj2
           (alloc_ring_post 4 all_allocated H)))))))).
Defined.

Lemma no_signal_without_progress_witness :
  kick_available demo_kicked = demo_kicked.
Proof.
  refine (proj1 (proj2 (no_signal_without_progress 4 demo_kicked)) _).
  reflexivity.
Defined.

Lemma slot_identifiers_stable_witness :
  index (ring_at (ring (snd (run 4 demo_calls (init 4)))) 3) = 3.
Proof.
  refine (proj1 (proj2 (slot_identifiers_stable 2 4 demo_calls _ _)) 3 _).
  - lia.
  - reflexivity.
  - lia.
Defined.

(** * The buffers on their way round the ring *)

Lemma use_buf_true_ring N o s :
  fst (fst (use_buf N o s)) = true ->
  let head := slot_of N (used_idx (host s)) in
  let d := ring_at (ring s) head in
  exists fl,
    ring (snd (use_buf N o s))
    = ring_set (ring s) head (mk_desc (addr d) (u32 (len d - 1)) (index d) fl)
    /\ (Z.to_nat head < length (ring s))%nat.
Proof.
  intros H head d. unfold use_buf in *. fold head in H |- *.
  cbn [ring set_host] in *. fold d in H |- *.
  destruct (Z.land (flags d) DESC_HW =? 0) eqn:Hhw; [discriminate |].
  assert (Hin : (Z.to_nat head < length (ring s))%nat).
  { apply hw_set_in_range. fold d. unfold hw_set. now rewrite Hhw. }
  destruct (negb _); [discriminate |].
  cbn [snd ring set_host set_ring].
  rewrite ring_at_set_eq, ring_set_set by assumption.
  eexists. split; [reflexivity | assumption].
Qed.

Lemma adds_ok_cons x tr : adds_ok (x :: tr) = adds_ok [x] + adds_ok tr.
Proof.
  destruct x as [c r]. destruct c; try reflexivity.
  destruct r; try reflexivity. destruct z as [| [] | ]; cbn [adds_ok]; lia.
Qed.

Lemma uses_ok_cons x tr : uses_ok (x :: tr) = uses_ok [x] + uses_ok tr.
Proof.
  destruct x as [c r]. destruct c; try reflexivity.
  destruct r; try reflexivity. destruct b; cbn [uses_ok]; lia.
Qed.

Lemma bufs_published_cons x tr :
  bufs_published (x :: tr) = bufs_published [x] ++ bufs_published tr.
Proof.
  destruct x as [c r]. destruct c; try reflexivity.
  destruct r; try reflexivity. destruct z as [| [] | ]; reflexivity.
Qed.

Lemma bufs_reclaimed_cons x tr :
  bufs_reclaimed (x :: tr) = bufs_reclaimed [x] ++ bufs_reclaimed tr.
Proof.
  destruct x as [c r]. destruct c; try reflexivity.
  destruct r; try reflexivity. cbn. now destruct (p =? 0).
Qed.

Lemma adds_ok_length tr : adds_ok tr = Z.of_nat (length (bufs_published tr)).
Proof.
  induction tr as [| x tr IH]; [reflexivity |].
  rewrite adds_ok_cons, bufs_published_cons, length_app, IH.
  destruct x as [c r]. destruct c; try (cbn; lia).
  destruct r; try (cbn; lia). destruct z as [| [] | ]; cbn; lia.
Qed.

Lemma tags_of_bufs_published tr : tags_published tr = snd <$> bufs_published tr.
Proof.
  induction tr as [| x tr IH]; [reflexivity |].
  rewrite tags_published_cons, bufs_published_cons, fmap_app, IH. f_equal.
  destruct x as [c r]. destruct c; try reflexivity.
  destruct r; try reflexivity. destruct z as [| [] | ]; reflexivity.
Qed.

Lemma tags_of_bufs_reclaimed tr : tags_reclaimed tr = snd <$> bufs_reclaimed tr.
Proof.
  induction tr as [| x tr IH]; [reflexivity |].
  rewrite tags_reclaimed_cons, bufs_reclaimed_cons, fmap_app, IH. f_equal.
  destruct x as [c r]. destruct c; try reflexivity.
  destruct r; try reflexivity. cbn. now destruct (p =? 0).
Qed.

Section Payload.

Variables k N : Z.
Hypothesis Hk : 0 <= k <= 16.
Hypothesis HN : N = 2 ^ k.

Local Lemma Hk31' : 0 <= k <= 31.
Proof. lia. Qed.

Lemma payload_inv_init : payload_inv N [] 0 0 (init N).
Proof.
  split; [exact (fifo_inv_init k N Hk HN) |]. intros i x H. discriminate.
Qed.

Lemma payload_inv_eq q l u l' u' s :
  l = l' -> u = u' -> payload_inv N q l u s -> payload_inv N q l' u' s.
Proof. now intros -> ->. Qed.

Lemma payload_core q l u s :
  payload_inv N q l u s -> core_inv N l u (l + Z.of_nat (length q)) s.
Proof. intros [[I _] _]. now rewrite length_fmap in I. Qed.

Lemma add_inbuf_payload q l u s len_ b d f :
  payload_inv N q l u s ->
  add_inbuf N len_ b d f s = (-1, s)
  \/ (fst (add_inbuf N len_ b d f s) = 0
      /\ payload_inv N (q ++ [(len_, b, d)]) l u (snd (add_inbuf N len_ b d f s))).
Proof.
  intros P. pose proof P as [F Hq]. pose proof (payload_core _ _ _ _ P) as I.
  set (a := l + Z.of_nat (length q)) in *.
  destruct (add_inbuf_fifo k N Hk HN _ l u s len_ b d f F) as [E | [Hz F']];
    [now left | right].
  split; [assumption |].
  destruct (ci_order _ _ _ _ _ I) as (Hl & Hlu & Hua & Hal).
  assert (Hlt : a < l + N).
  { destruct (add_inbuf_core k N Hk31' HN l u a s len_ b d f I)
      as [[_ E] | (? & _)]; [| assumption].
    rewrite E in Hz. discriminate. }
  assert (Hhead : slot_of N (avail_idx (guest s)) = a mod N)
    by now rewrite (ci_avail _ _ _ _ _ I), (slot_of_u32 k N Hk31' HN).
  assert (Hin : (Z.to_nat (a mod N) < length (ring s))%nat)
    by now apply (slot_in_range k N Hk31' HN l u a).
  assert (Hst : data (snd (add_inbuf N len_ b d f s))
                = data_set (data s) (a mod N) (mk_data b d)
                /\ exists fl,
                  ring (snd (add_inbuf N len_ b d f s))
                  = ring_set (ring s) (a mod N) (mk_desc b len_ (a mod N) fl)).
  { rewrite add_inbuf_ok;
      [| rewrite (ci_free _ _ _ _ _ I); lia | now rewrite Hhead].
    cbn [snd data ring]. rewrite Hhead, (slot_index k N Hk HN _ l u s a F).
    split; [reflexivity | eexists; reflexivity]. }
  destruct Hst as [Hdata [fl Hring]].
  split; [now rewrite fmap_app |].
  intros i x Hi. rewrite Hdata, Hring.
  destruct (lookup_app_Some q [(len_, b, d)] i x) as [Happ _].
  destruct (Happ Hi) as [Hx | [Hge Hx]].
  - pose proof (lookup_lt_Some _ _ _ Hx) as Hlen.
    assert (Hne : Z.to_nat (a mod N) <> Z.to_nat ((l + Z.of_nat i) mod N)).
    { apply (slot_ne k N Hk31' HN). intros E.
      apply (window_inj k N Hk31' HN l) in E; lia. }
    rewrite data_at_set_ne, ring_at_set_ne by assumption. now apply Hq.
  - destruct (i - length q)%nat as [| n] eqn:Hn; [| destruct n; discriminate].
    inversion Hx; subst x. cbn [fst snd].
    replace (l + Z.of_nat i) with a by lia.
    rewrite data_at_set_eq
      by (apply (data_in_range k N Hk HN (snd <$> q) l); exact (proj2 F)).
    rewrite ring_at_set_eq by assumption. cbn [d_buf len].
    replace (a <? u) with false by (symmetry; apply Z.ltb_ge; lia).
    split; reflexivity.
Qed.

Lemma get_buf_payload q l u s o :
  payload_inv N q l u s -> num_free (guest s) < N ->
  get_buf N o s = (0, o, s)
  \/ (exists x q', q = x :: q'
        /\ fst (fst (get_buf N o s)) = snd x
        /\ o_len (snd (fst (get_buf N o s))) = u32 (fst (fst x) - 1)
        /\ o_buf (snd (fst (get_buf N o s))) = snd (fst x)
        /\ payload_inv N q' (l + 1) u (snd (get_buf N o s))).
Proof.
  intros P Hnf. pose proof P as [F Hq]. pose proof (payload_core _ _ _ _ P) as I.
  set (a := l + Z.of_nat (length q)) in *.
  destruct (ci_order _ _ _ _ _ I) as (Hl & Hlu & Hua & Hal).
  assert (Hla : l < a) by (rewrite (ci_free _ _ _ _ _ I) in Hnf; lia).
  destruct (get_buf_core k N Hk31' HN l u a s o I Hla)
    as [[_ E] | (Hlt & Hhw & _)]; [now left | right].
  assert (Hhead : slot_of N (last_used_idx (guest s)) = l mod N)
    by now rewrite (ci_last _ _ _ _ _ I), (slot_of_u32 k N Hk31' HN).
  destruct (get_buf_fifo k N Hk HN _ l u s o F Hnf)
    as [E | (tag & t' & Hqt & Ht & F')].
  { exfalso. rewrite get_buf_ok in E by now rewrite Hhead.
    apply (f_equal (fun r => last_used_idx (guest (snd r)))) in E.
    cbn [snd guest last_used_idx] in E.
    rewrite (ci_last _ _ _ _ _ I) in E. clear -E. modarith. }
  destruct q as [| x q']; [discriminate |].
  cbn [fmap list_fmap] in Hqt. inversion Hqt; subst tag t'.
  exists x, q'. split; [reflexivity |]. split; [congruence |].
  assert (Hi : Z.land (index (ring_at (ring s) (l mod N))) (u32 (N - 1)) = l mod N).
  { rewrite (slot_index k N Hk HN _ l u s l F), Z.land_comm.
    change (Z.land (u32 (N - 1)) (l mod N)) with (slot_of N (l mod N)).
    rewrite (slot_of_mod k N Hk31' HN). apply Z.mod_mod.
    pose proof (N_pos k N Hk31' HN). lia. }
  destruct (Hq 0%nat x eq_refl) as [Hb Hlen].
  replace (l + Z.of_nat 0) with l in Hb, Hlen by lia.
  replace (l <? u) with true in Hlen by (symmetry; apply Z.ltb_lt; lia).
  rewrite get_buf_ok in F' |- * by now rewrite Hhead.
  rewrite Hhead, Hi in F' |- *. cbn [fst snd o_len o_buf] in *.
  split; [assumption |]. split; [assumption |].
  split; [assumption |].
  intros i y Hy. cbn [data ring].
  assert (Hlen' : (i < length q')%nat) by now apply lookup_lt_Some in Hy.
  simpl in a.
  rewrite data_at_set_ne
    by (apply (slot_ne k N Hk31' HN); intros E;
        apply (window_inj k N Hk31' HN l) in E; lia).
  replace (l + 1 + Z.of_nat i) with (l + Z.of_nat (S i)) by lia.
  now apply Hq.
Qed.

Lemma use_buf_payload q l u s o :
  payload_inv N q l u s ->
  (fst (fst (use_buf N o s)) = false
   /\ payload_inv N q l u (snd (use_buf N o s)))
  \/ (fst (fst (use_buf N o s)) = true
      /\ u < l + Z.of_nat (length q)
      /\ payload_inv N q l (u + 1) (snd (use_buf N o s))).
Proof.
  intros P. pose proof P as [[_ Sh] Hq]. pose proof (payload_core _ _ _ _ P) as I.
  set (a := l + Z.of_nat (length q)) in *.
  destruct (ci_order _ _ _ _ _ I) as (Hl & Hlu & Hua & Hal).
  pose proof (use_buf_data N o s) as Hdata.
  destruct (use_buf_core k N Hk31' HN l u a s o I) as [(E & _ & I') | (Ht & Hlt & I')].
  - left. rewrite E in I' |- *. cbn [fst snd] in *. split; [reflexivity |].
    split; [split |].
    + now rewrite length_fmap.
    + constructor; cbn [ring data set_host]; apply Sh.
    + intros i x Hi. cbn [ring data set_host]. now apply Hq.
  - right. split; [assumption |]. split; [assumption |].
    destruct (use_buf_true_ring N o s Ht) as (fl & Hring & Hin).
    assert (Hhead : slot_of N (used_idx (host s)) = u mod N)
      by now rewrite (ci_used _ _ _ _ _ I), (slot_of_u32 k N Hk31' HN).
    rewrite Hhead in Hring, Hin.
    split; [split |].
    + now rewrite length_fmap.
    + constructor.
      * rewrite Hdata. apply Sh.
      * rewrite Hring, fmap_index_ring_set by reflexivity. apply Sh.
      * intros i t Hi. rewrite Hdata. now apply Sh.
    + intros i x Hi. rewrite Hdata, Hring.
      destruct (Hq i x Hi) as [Hb Hlen]. split; [assumption |].
      pose proof (lookup_lt_Some _ _ _ Hi) as Hlt'.
      destruct (Z.eq_dec (l + Z.of_nat i) u) as [Heq | Hne].
      * rewrite Heq in *. rewrite ring_at_set_eq by assumption. cbn [len].
        replace (u <? u) with false in Hlen by (symmetry; apply Z.ltb_ge; lia).
        replace (u <? u + 1) with true by (symmetry; apply Z.ltb_lt; lia).
        now rewrite Hlen.
      * rewrite ring_at_set_ne
          by (apply (slot_ne k N Hk31' HN); intros E;
              apply (window_inj k N Hk31' HN l) in E; lia).
        replace (l + Z.of_nat i <? u + 1) with (l + Z.of_nat i <? u)
          by (destruct (Z.ltb_spec (l + Z.of_nat i) u);
              destruct (Z.ltb_spec (l + Z.of_nat i) (u + 1)); lia).
        exact Hlen.
Qed.

Lemma payload_inv_frame q l u s s' :
  payload_inv N q l u s ->
  ring s' = ring s -> data s' = data s ->
  g_wrap (guest s') = g_wrap (guest s) ->
  avail_idx (guest s') = avail_idx (guest s) ->
  last_used_idx (guest s') = last_used_idx (guest s) ->
  num_free (guest s') = num_free (guest s) ->
  h_wrap (host s') = h_wrap (host s) ->
  used_idx (host s') = used_idx (host s) ->
  payload_inv N q l u s'.
Proof.
  intros [F Hq] Hr Hd Hgw Ha Hlu Hnf Hhw Hu. split.
  - now apply (fifo_inv_frame N _ l u s).
  - intros i x Hi. rewrite Hr, Hd. now apply Hq.
Qed.

(** One call of a well-driven harness, with the buffers it adds and
    reclaims and the cursors it moves. *)
Lemma exec_payload q l u s c :
  payload_inv N q l u s ->
  (c = GetBuf -> num_free (guest s) < N) ->
  exists q' done,
    payload_inv N q' (l + Z.of_nat (length done))
      (u + uses_ok [(c, fst (exec N c s))]) (snd (exec N c s))
    /\ q ++ bufs_published [(c, fst (exec N c s))] = done ++ q'
    /\ bufs_reclaimed [(c, fst (exec N c s))]
       = List.filter nonnull_tag (completed <$> done).
Proof.
  intros P Hdrv.
  assert (Hsame : forall s', payload_inv N q l u s' ->
            payload_inv N q (l + Z.of_nat (length (@nil (Z * Z * Z)))) (u + 0) s').
  { intros s'. apply payload_inv_eq; cbn [length]; lia. }
  destruct c; cbn [exec].
  - destruct (add_inbuf_payload q l u s len_ buf datap flags_ P) as [E | [Hz P']].
    + rewrite E. exists q, []. cbn. rewrite app_nil_r. split; [now apply Hsame | easy].
    + destruct (add_inbuf N len_ buf datap flags_ s) as [z s'].
      cbn [fst snd] in *. subst z. exists (q ++ [(len_, buf, datap)]), [].
      split; [| easy]. revert P'. apply payload_inv_eq; cbn; lia.
  - destruct (get_buf_payload q l u s no_outs P (Hdrv eq_refl))
      as [E | (x & q' & -> & Ht & Hlen & Hbuf & P')].
    + rewrite E. exists q, []. cbn. rewrite app_nil_r. split; [now apply Hsame | easy].
    + destruct (get_buf N no_outs s) as [[p o] s']. cbn [fst snd] in *.
      exists q', [x]. split; [revert P'; apply payload_inv_eq; cbn; lia |].
      cbn. split; [now rewrite app_nil_r |].
      unfold nonnull_tag, nonnull, completed. cbn [fst snd]. subst p.
      destruct (x.2 =? 0); [reflexivity |]. now rewrite Hlen, Hbuf.
  - exists q, []. cbn. rewrite app_nil_r. split; [now apply Hsame | easy].
  - exists q, []. cbn. rewrite app_nil_r. split; [now apply Hsame | easy].
  - exists q, []. cbn. rewrite app_nil_r.
    split; [apply Hsame; now apply (payload_inv_frame q l u s) | easy].
  - exists q, []. cbn. rewrite app_nil_r. split; [| easy]. apply Hsame.
    unfold kick_available. destruct (negb _); [assumption |].
    now apply (payload_inv_frame q l u s).
  - exists q, []. cbn. rewrite app_nil_r. split; [now apply Hsame | easy].
  - exists q, []. cbn. rewrite app_nil_r.
    split; [apply Hsame; now apply (payload_inv_frame q l u s) | easy].
  - exists q, []. cbn. rewrite app_nil_r. split; [now apply Hsame | easy].
  - destruct (use_buf_payload q l u s no_outs P) as [[Hf P'] | (Ht & _ & P')];
      destruct (use_buf N no_outs s) as [[b o] s']; cbn [fst snd] in *; subst b;
      exists q, []; cbn; rewrite app_nil_r; (split; [| easy]).
    + now apply Hsame.
    + revert P'. apply payload_inv_eq; cbn; lia.
  - exists q, []. cbn. rewrite app_nil_r. split; [| easy]. apply Hsame.
    unfold call_used. destruct (negb _); [assumption |].
    now apply (payload_inv_frame q l u s).
Qed.

Lemma run_payload cs : forall q l u s,
  payload_inv N q l u s ->
  well_driven N cs s = true ->
  exists q' done,
    payload_inv N q' (l + Z.of_nat (length done))
      (u + uses_ok (fst (run N cs s))) (snd (run N cs s))
    /\ q ++ bufs_published (fst (run N cs s)) = done ++ q'
    /\ bufs_reclaimed (fst (run N cs s))
       = List.filter nonnull_tag (completed <$> done).
Proof.
  induction cs as [| c cs IH]; intros q l u s P Hw; cbn [run].
  - exists q, []. cbn. rewrite app_nil_r. split; [| easy].
    revert P. apply payload_inv_eq; lia.
  - cbn [well_driven] in Hw. apply andb_true_iff in Hw as [Hc Hw].
    destruct (exec_payload q l u s c P) as (q1 & d1 & P1 & Hp1 & Hr1).
    { intros ->. now apply Z.ltb_lt in Hc. }
    destruct (exec N c s) as [r s1]. cbn [fst snd] in *.
    destruct (IH q1 _ _ s1 P1 Hw) as (q2 & d2 & P2 & Hp2 & Hr2).
    destruct (run N cs s1) as [tr s2]. cbn [fst snd] in *.
    exists q2, (d1 ++ d2). split; [| split].
    + revert P2. apply payload_inv_eq.
      * rewrite length_app. lia.
      * rewrite (uses_ok_cons (c, r) tr). lia.
    + rewrite bufs_published_cons, app_assoc, Hp1, <- app_assoc, Hp2.
      now rewrite app_assoc.
    + rewrite bufs_reclaimed_cons, Hr1, Hr2, fmap_app.
      symmetry. apply List.filter_app.
Qed.

(** What a well-driven harness has reached, in terms of what it has
    observed: the host's cursor counts the successful [use_buf] calls, the
    guest's the successful [add_inbuf] calls. *)
Lemma run_reaches cs :
  well_driven N cs (init N) = true ->
  exists q done,
    payload_inv N q (Z.of_nat (length done))
      (uses_ok (fst (run N cs (init N)))) (snd (run N cs (init N)))
    /\ bufs_published (fst (run N cs (init N))) = done ++ q
    /\ bufs_reclaimed (fst (run N cs (init N)))
       = List.filter nonnull_tag (completed <$> done).
Proof.
  intros Hw.
  destruct (run_payload cs [] 0 0 (init N) payload_inv_init Hw)
    as (q & done & P & Hp & Hr).
  exists q, done. split; [| split; assumption].
  revert P. apply payload_inv_eq; lia.
Qed.

End Payload.

(** * The cursors and the emptiness tests *)

Section Counting.

Variables k N : Z.
Hypothesis Hk : 0 <= k <= 31.
Hypothesis HN : N = 2 ^ k.

Lemma core_inv_eq l u a l' u' a' s :
  l = l' -> u = u' -> a = a' -> core_inv N l u a s -> core_inv N l' u' a' s.
Proof. now intros -> -> ->. Qed.

Lemma exec_core_counts l u a s c :
  core_inv N l u a s ->
  (c = GetBuf -> num_free (guest s) < N) ->
  exists l',
    core_inv N l' (u + uses_ok [(c, fst (exec N c s))])
      (a + adds_ok [(c, fst (exec N c s))]) (snd (exec N c s)).
Proof.
  intros I Hdrv.
  assert (Hsame : forall s', core_inv N l u a s' -> core_inv N l (u + 0) (a + 0) s')
    by (intros s'; apply core_inv_eq; lia).
  destruct c; cbn [exec].
  - destruct (add_inbuf_core k N Hk HN l u a s len_ buf datap flags_ I)
      as [[_ E] | (_ & Hz & I')].
    + rewrite E. exists l. now apply Hsame.
    + destruct (add_inbuf _ _ _ _ _ s) as [z s']. cbn [fst snd] in *. subst z.
      exists l. revert I'. apply core_inv_eq; cbn; lia.
  - assert (Hla : l < a) by (specialize (Hdrv eq_refl);
                              rewrite (ci_free _ _ _ _ _ I) in Hdrv; lia).
    destruct (get_buf_core k N Hk HN l u a s no_outs I Hla) as [[_ E] | (_ & _ & I')].
    + rewrite E. exists l. now apply Hsame.
    + destruct (get_buf _ _ s) as [[p o] s']. exists (l + 1).
      revert I'. apply core_inv_eq; cbn; lia.
  - exists l. now apply Hsame.
  - exists l. now apply Hsame.
  - exists l. apply Hsame. now apply (core_inv_frame N l u a s).
  - exists l. apply Hsame. unfold kick_available.
    destruct (negb _); [assumption |]. now apply (core_inv_frame N l u a s).
  - exists l. now apply Hsame.
  - exists l. apply Hsame. now apply (core_inv_frame N l u a s).
  - exists l. now apply Hsame.
  - destruct (use_buf_core k N Hk HN l u a s no_outs I) as [(E & _ & I') | (Ht & _ & I')].
    + rewrite E in I' |- *. exists l. now apply Hsame.
    + destruct (use_buf _ _ s) as [[b o] s']. cbn [fst snd] in *. subst b.
      exists l. revert I'. apply core_inv_eq; cbn; lia.
  - exists l. apply Hsame. unfold call_used.
    destruct (negb _); [assumption |]. now apply (core_inv_frame N l u a s).
Qed.

Lemma run_core_counts cs : forall l u a s,
  core_inv N l u a s ->
  well_driven N cs s = true ->
  exists l',
    core_inv N l' (u + uses_ok (fst (run N cs s)))
      (a + adds_ok (fst (run N cs s))) (snd (run N cs s)).
Proof.
  induction cs as [| c cs IH]; intros l u a s I Hw; cbn [run].
  - exists l. revert I. apply core_inv_eq; cbn; lia.
  - cbn [well_driven] in Hw. apply andb_true_iff in Hw as [Hc Hw].
    destruct (exec_core_counts l u a s c I) as (l1 & I1).
    { intros ->. now apply Z.ltb_lt in Hc. }
    destruct (exec N c s) as [r s1]. cbn [fst snd] in *.
    destruct (IH l1 _ _ s1 I1 Hw) as (l2 & I2).
    destruct (run N cs s1) as [tr s2]. cbn [fst snd] in *.
    exists l2. revert I2.
    apply core_inv_eq;
      rewrite ?(uses_ok_cons (c, r) tr), ?(adds_ok_cons (c, r) tr); lia.
Qed.

Lemma run_counts cs :
  well_driven N cs (init N) = true ->
  exists l,
    core_inv N l (uses_ok (fst (run N cs (init N))))
      (adds_ok (fst (run N cs (init N)))) (snd (run N cs (init N))).
Proof.
  intros Hw.
  destruct (run_core_counts cs 0 0 0 (init N) (core_inv_init k N Hk HN) Hw) as [l I].
  exists l. revert I. apply core_inv_eq; lia.
Qed.

(** The host's emptiness test on a ring between its cursors. *)
Lemma avail_empty_core l u a s :
  core_inv N l u a s -> (avail_empty N s = true <-> u = a).
Proof.
  intros I. destruct (ci_order _ _ _ _ _ I) as (Hl & Hlu & Hua & Hal).
  destruct (slot_at_used k N Hk HN l u a s I) as [Hpend Hnone].
  unfold avail_empty. rewrite (ci_used _ _ _ _ _ I), (slot_of_u32 k N Hk HN).
  split.
  - intros He. destruct (Z.eq_dec u a) as [| Hne]; [assumption | exfalso].
    rewrite (Hpend ltac:(lia)) in He.
    destruct (flags_of_wrap _ (lap_wrap_cases N u)) as (_ & Hhw & _). congruence.
  - intros Heq. specialize (Hnone Heq). unfold hw_set in Hnone.
    now apply negb_false_iff in Hnone.
Qed.

(** The guest's emptiness test on a ring between its cursors. *)
Lemma used_empty_core l u a s :
  core_inv N l u a s ->
  (used_empty N s = true -> l = u /\ u < a)
  /\ (l = u -> u < a -> u mod N <> 0 -> used_empty N s = true).
Proof.
  intros I. destruct (ci_order _ _ _ _ _ I) as (Hl & Hlu & Hua & Hal).
  pose proof (N_pos k N Hk HN) as Hpos.
  unfold used_empty. rewrite (ci_last _ _ _ _ _ I), (slot_of_u32 k N Hk HN).
  pose proof (ci_slots _ _ _ _ _ I l ltac:(lia)) as Hs.
  split.
  - intros He. apply andb_true_iff in He as [He _].
    destruct ((u <=? l) && (l <? a)) eqn:Hc.
    + apply andb_true_iff in Hc as [H1 H2].
      apply Z.leb_le in H1. apply Z.ltb_lt in H2. lia.
    + unfold hw_set in Hs. congruence.
  - intros Heq Hlt Hm. subst l.
    replace ((u <=? u) && (u <? a)) with true in Hs
      by (symmetry; apply andb_true_iff;
          split; [apply Z.leb_le | apply Z.ltb_lt]; lia).
    destruct (flags_of_wrap _ (lap_wrap_cases N u)) as (_ & Hhw & Hwr & _).
    rewrite Hs, Hhw, Hwr. cbn [negb andb]. apply Z.eqb_eq.
    symmetry. now apply (ci_hwrap _ _ _ _ _ I).
Qed.

End Counting.

(** X1.  In a harness that calls [get_buf] only while a buffer is
    outstanding, on a ring of [2^k] entries: the guest's and the host's
    cursors count the [add_inbuf] and [use_buf] calls that succeeded
    (modulo 2^32); the host never completes more buffers than the guest
    has added, never lags by more than the ring size, and the slots it
    owns are exactly the buffers added and not completed; [num_free] stays
    between 0 and the ring size and is the ring size less the distance
    from the guest's read cursor to its publish cursor. *)
Theorem cursors_count_calls (k N : Z) (cs : list call) :
  0 <= k <= 31 -> N = 2 ^ k ->
  well_driven N cs (init N) = true ->
  let tr := fst (run N cs (init N)) in
  let s := snd (run N cs (init N)) in
  avail_idx (guest s) = u32 (adds_ok tr)
  /\ used_idx (host s) = u32 (uses_ok tr)
  /\ uses_ok tr <= adds_ok tr <= uses_ok tr + N
  /\ hw_count (ring s) = adds_ok tr - uses_ok tr
  /\ 0 <= num_free (guest s) <= N
  /\ num_free (guest s)
     = N - u32 (avail_idx (guest s) - last_used_idx (guest s)).
Proof.
  intros Hk HN Hw tr s.
  destruct (run_counts k N Hk HN cs Hw) as [l I]. fold tr s in I.
  destruct (ci_order _ _ _ _ _ I) as (Hl & Hlu & Hua & Hal).
  pose proof (N_le k N Hk HN). change (2 ^ 31) with 2147483648 in *.
  split; [apply I |]. split; [apply I |]. split; [lia |].
  split; [apply I |].
  rewrite (ci_free _ _ _ _ _ I), (ci_avail _ _ _ _ _ I), (ci_last _ _ _ _ _ I).
  replace (u32 (u32 (adds_ok tr) - u32 l)) with (adds_ok tr - l) by modarith.
  lia.
Qed.

(** X2.  In such a harness [avail_empty] returns true exactly when the
    host has completed every buffer the guest has added.  And in any
    state, when [avail_empty] returns true, [use_buf] returns false,
    stores nothing through its pointers and changes nothing but the
    host's [wrap]. *)
Theorem avail_empty_exact (k N : Z) (cs : list call) :
  0 <= k <= 31 -> N = 2 ^ k ->
  well_driven N cs (init N) = true ->
  let tr := fst (run N cs (init N)) in
  let s := snd (run N cs (init N)) in
  (avail_empty N s = true <-> uses_ok tr = adds_ok tr)
  /\ (forall s0 o,
         avail_empty N s0 = true ->
         use_buf N o s0
         = (false, o, set_host s0 (set_h_wrap (host s0) (polled_wrap N s0)))).
Proof.
  intros Hk HN Hw tr s.
  destruct (run_counts k N Hk HN cs Hw) as [l I]. fold tr s in I.
  split; [exact (avail_empty_core k N Hk HN _ _ _ _ I) |].
  intros s0 o He. apply use_buf_empty. left.
  unfold avail_empty in He. unfold hw_set. now rewrite He.
Qed.

(** X3.  When [used_empty] returns true, [get_buf] returns NULL and
    changes nothing, in any state.  In a harness as above, [used_empty]
    returns true only when a buffer is outstanding and the host has
    completed nothing that is not reclaimed yet; and it does return true
    then, provided the host's cursor is not at slot 0. *)
Theorem used_empty_meaning (k N : Z) (cs : list call) (o : outs) :
  0 <= k <= 31 -> N = 2 ^ k ->
  well_driven N cs (init N) = true ->
  let tr := fst (run N cs (init N)) in
  let s := snd (run N cs (init N)) in
  (forall s0, used_empty N s0 = true -> get_buf N o s0 = (0, o, s0))
  /\ (used_empty N s = true ->
      completed_unreclaimed s = 0 /\ uses_ok tr < adds_ok tr)
  /\ (completed_unreclaimed s = 0 -> uses_ok tr < adds_ok tr ->
      slot_of N (used_idx (host s)) <> 0 -> used_empty N s = true).
Proof.
  intros Hk HN Hw tr s.
  destruct (run_counts k N Hk HN cs Hw) as [l I]. fold tr s in I.
  destruct (ci_order _ _ _ _ _ I) as (Hl & Hlu & Hua & Hal).
  pose proof (N_le k N Hk HN). change (2 ^ 31) with 2147483648 in *.
  destruct (used_empty_core k N Hk HN _ _ _ _ I) as [Hue Hconv].
  assert (Hcu : completed_unreclaimed s = uses_ok tr - l).
  { unfold completed_unreclaimed.
    rewrite (ci_used _ _ _ _ _ I), (ci_last _ _ _ _ _ I). modarith. }
  split; [| split].
  - intros s0 Hx. apply get_buf_busy. unfold used_empty in Hx.
    now apply andb_true_iff in Hx as [Hx _].
  - intros Hx. destruct (Hue Hx) as [Hx1 Hlt]. rewrite Hcu. lia.
  - intros Hz Hlt Hslot. apply Hconv; [lia | lia |].
    now rewrite (ci_used _ _ _ _ _ I), (slot_of_u32 k N Hk HN) in Hslot.
Qed.

(** X5.  In such a harness, when [avail_empty] returns false, [use_buf]
    succeeds at the first attempt or, with the host's cursor at slot 0, at
    the second. *)
Theorem use_buf_within_two (k N : Z) (cs : list call) (o : outs) :
  0 <= k <= 31 -> N = 2 ^ k ->
  well_driven N cs (init N) = true ->
  let s := snd (run N cs (init N)) in
  avail_empty N s = false ->
  fst (fst (use_buf N o s)) = true
  \/ (slot_of N (used_idx (host s)) = 0
      /\ fst (fst (use_buf N o (snd (use_buf N o s)))) = true).
Proof.
  intros Hk HN Hw s Hne.
  destruct (run_counts k N Hk HN cs Hw) as [l I]. fold s in I.
  destruct (ci_order _ _ _ _ _ I) as (Hl & Hlu & Hua & Hal).
  assert (Hlt : uses_ok (fst (run N cs (init N))) < adds_ok (fst (run N cs (init N)))).
  { destruct (Z.eq_dec (uses_ok (fst (run N cs (init N))))
                (adds_ok (fst (run N cs (init N))))) as [E | E]; [| lia].
    apply (avail_empty_core k N Hk HN _ _ _ _ I) in E. congruence. }
  destruct (fst (fst (use_buf N o s))) eqn:Hu; [now left | right].
  destruct (use_buf_retry k N _ _ _ s o Hk HN I Hlt Hu) as [Hm Hr].
  split; [| assumption].
  now rewrite (ci_used _ _ _ _ _ I), (slot_of_u32 k N Hk HN).
Qed.

(** * What the guest gets back *)

Lemma filter_nonnull_tag_all (l : list (Z * Z * Z)) :
  Forall (fun x => snd x <> 0) l ->
  List.filter nonnull_tag (completed <$> l) = completed <$> l.
Proof.
  induction 1 as [| x l Hx _ IH]; [reflexivity |].
  cbn [fmap list_fmap List.filter]. fold (fmap (M := list) completed l).
  unfold nonnull_tag at 1, nonnull, completed at 1. cbn [snd].
  replace (x.2 =? 0) with false by (symmetry; now apply Z.eqb_neq).
  cbn [negb]. now rewrite IH.
Qed.

(** X4.  Round trip of a buffer: on a ring of [2^k] entries, [k <= 16],
    driven as above, the [get_buf] calls that return non-NULL hand back,
    in order, the buffers of a prefix of the successful [add_inbuf] calls
    whose tag is not NULL: the tag is returned, the [buf] pointer comes
    back through [bufp], and the length through [lenp], less one (modulo
    2^32).  When no NULL tag is added they are a prefix of the buffers
    added; and never more buffers are reclaimed than [use_buf] has
    completed. *)
Theorem buffers_round_trip (k N : Z) (cs : list call) :
  0 <= k <= 16 -> N = 2 ^ k ->
  well_driven N cs (init N) = true ->
  let tr := fst (run N cs (init N)) in
  (exists n, bufs_reclaimed tr
             = List.filter nonnull_tag (completed <$> take n (bufs_published tr)))
  /\ (Forall (fun x => snd x <> 0) (bufs_published tr) ->
      bufs_reclaimed tr `prefix_of` (completed <$> bufs_published tr))
  /\ Z.of_nat (length (bufs_reclaimed tr)) <= uses_ok tr.
Proof.
  intros Hk HN Hw tr.
  destruct (run_reaches k N Hk HN cs Hw) as (q & done & P & Hp & Hr).
  fold tr in P, Hp, Hr.
  split; [| split].
  - exists (length done). now rewrite Hp, take_app_length.
  - intros Hnn. rewrite Hp in Hnn |- *. apply Forall_app in Hnn as [Hd _].
    rewrite Hr, filter_nonnull_tag_all, fmap_app by assumption.
    now exists (completed <$> q).
  - pose proof (payload_core N _ _ _ _ P) as I.
    destruct (ci_order _ _ _ _ _ I) as (_ & Hlu & _).
    rewrite Hr.
    pose proof (List.filter_length_le nonnull_tag (completed <$> done)) as Hle.
    rewrite length_fmap in Hle. lia.
Qed.

(** * Arming and signalling *)

Lemma need_event_after_arming A K m :
  1 <= m -> u16 (A - K) + m < 65536 ->
  need_event (u16 A) (u16 (A + m)) (u16 K) = true.
Proof.
  intros Hm Hd. pose proof (u16_range (A - K)) as Hr.
  replace (u16 (A + m)) with (u16 (K + (u16 (A - K) + m))) by modarith.
  replace (u16 K) with (u16 (K + 0)) by (f_equal; lia).
  rewrite need_event_window by lia.
  replace (u16 (u16 A - K)) with (u16 (A - K)) by modarith.
  apply andb_true_iff. split; [apply Z.leb_le | apply Z.ltb_lt]; lia.
Qed.

(** The guest's calls, [kick_available] apart, leave the host's state,
    [kick_index], the last kick and the signals as they are. *)
Lemma run_guest_frame N gs : forall s,
  forallb guest_call gs = true ->
  host (snd (run N gs s)) = host s
  /\ kick_index (event (snd (run N gs s))) = kick_index (event s)
  /\ kicked_avail_idx (guest (snd (run N gs s))) = kicked_avail_idx (guest s)
  /\ signals (snd (run N gs s)) = signals s
  /\ u16 (avail_idx (guest (snd (run N gs s))))
     = u16 (avail_idx (guest s) + adds_ok (fst (run N gs s))).
Proof.
  induction gs as [| c gs IH]; intros s Hg; cbn [run].
  - cbn. repeat split. f_equal. lia.
  - cbn [forallb] in Hg. apply andb_true_iff in Hg as [Hc Hg].
    assert (He : host (snd (exec N c s)) = host s
                 /\ kick_index (event (snd (exec N c s))) = kick_index (event s)
                 /\ kicked_avail_idx (guest (snd (exec N c s)))
                    = kicked_avail_idx (guest s)
                 /\ signals (snd (exec N c s)) = signals s
                 /\ u16 (avail_idx (guest (snd (exec N c s))))
                    = u16 (avail_idx (guest s) + adds_ok [(c, fst (exec N c s))])).
    { destruct c; try discriminate; cbn [exec].
      - unfold add_inbuf. destruct (num_free (guest s) =? 0); cbn.
        + repeat split. f_equal. lia.
        + repeat split; try (now destruct (slot_of N _ =? 0)).
          destruct (slot_of N _ =? 0); cbn; rewrite u16_u32; f_equal; lia.
      - unfold get_buf. destruct (negb _); cbn; repeat split; f_equal; lia.
      - cbn; unfold disable_call, disable_kick. repeat split. f_equal. lia.
      - cbn; unfold disable_call, disable_kick. repeat split. f_equal. lia.
      - cbn; unfold disable_call, disable_kick. repeat split. f_equal. lia. }
    destruct (exec N c s) as [r s1]. cbn [fst snd] in *.
    destruct He as (H1 & H2 & H3 & H4 & H5).
    destruct (IH s1 Hg) as (J1 & J2 & J3 & J4 & J5).
    destruct (run N gs s1) as [tr s2]. cbn [fst snd] in *.
    rewrite J1, J2, J3, J4, J5, (adds_ok_cons (c, r) tr).
    repeat split; try assumption.
    rewrite <- u16_u16_add, H5, u16_u16_add. f_equal. lia.
Qed.

(** The host's calls, [call_used] apart, leave the guest's state,
    [call_index], the last call and the signals as they are. *)
Lemma run_host_frame N hs : forall s,
  forallb host_call hs = true ->
  guest (snd (run N hs s)) = guest s
  /\ call_index (event (snd (run N hs s))) = call_index (event s)
  /\ called_used_idx (host (snd (run N hs s))) = called_used_idx (host s)
  /\ signals (snd (run N hs s)) = signals s
  /\ u16 (used_idx (host (snd (run N hs s))))
     = u16 (used_idx (host s) + uses_ok (fst (run N hs s))).
Proof.
  induction hs as [| c hs IH]; intros s Hg; cbn [run].
  - cbn. repeat split. f_equal. lia.
  - cbn [forallb] in Hg. apply andb_true_iff in Hg as [Hc Hg].
    assert (He : guest (snd (exec N c s)) = guest s
                 /\ call_index (event (snd (exec N c s))) = call_index (event s)
                 /\ called_used_idx (host (snd (exec N c s)))
                    = called_used_idx (host s)
                 /\ signals (snd (exec N c s)) = signals s
                 /\ u16 (used_idx (host (snd (exec N c s))))
                    = u16 (used_idx (host s) + uses_ok [(c, fst (exec N c s))])).
    { destruct c; try discriminate; cbn [exec].
      - cbn; unfold disable_call, disable_kick. repeat split. f_equal. lia.
      - cbn; unfold disable_call, disable_kick. repeat split. f_equal. lia.
      - cbn; unfold disable_call, disable_kick. repeat split. f_equal. lia.
      - unfold use_buf. cbn [ring set_host].
        destruct (Z.land _ DESC_HW =? 0);
          [| destruct (negb _)]; cbn;
          destruct (slot_of N _ =? 0); cbn; repeat split;
          rewrite ?u16_u32; f_equal; lia. }
    destruct (exec N c s) as [r s1]. cbn [fst snd] in *.
    destruct He as (H1 & H2 & H3 & H4 & H5).
    destruct (IH s1 Hg) as (J1 & J2 & J3 & J4 & J5).
    destruct (run N hs s1) as [tr s2]. cbn [fst snd] in *.
    rewrite J1, J2, J3, J4, J5, (uses_ok_cons (c, r) tr).
    repeat split; try assumption.
    rewrite <- u16_u16_add, H5, u16_u16_add. f_equal. lia.
Qed.

(** X6.  No missed kick: in a harness driven as above, when [enable_kick]
    returns true (the host found nothing to complete) and the guest then
    makes any of its calls but [kick_available], adding at least one
    buffer, its next [kick_available] sends a kick and records the index
    it kicked at -- provided the guest's publish index, after these
    additions, is less than 2^16 entries past its last kick. *)
Theorem no_missed_kick (k N : Z) (cs gs : list call) :
  0 <= k <= 31 -> N = 2 ^ k ->
  well_driven N cs (init N) = true ->
  let s := snd (run N cs (init N)) in
  let s2 := snd (run N gs (snd (enable_kick N s))) in
  let added := adds_ok (fst (run N gs (snd (enable_kick N s)))) in
  fst (enable_kick N s) = true ->
  forallb guest_call gs = true ->
  1 <= added ->
  u16 (avail_idx (guest s) - kicked_avail_idx (guest s)) + added < 65536 ->
  signals (kick_available s2) = signals s ++ [Kick]
  /\ kicked_avail_idx (guest (kick_available s2)) = avail_idx (guest s2).
Proof.
  intros Hk HN Hw s s2 added Hen Hg Hadd Hdist.
  destruct (run_counts k N Hk HN cs Hw) as [l I]. fold s in I.
  assert (Hempty : avail_empty N s = true) by exact Hen.
  apply (avail_empty_core k N Hk HN _ _ _ _ I) in Hempty.
  destruct (run_guest_frame N gs (snd (enable_kick N s)) Hg)
    as (_ & Hki & Hkd & Hsig & Hav).
  fold s2 added in Hki, Hkd, Hsig, Hav.
  cbn [enable_kick snd set_event event kick_index guest signals] in Hki, Hkd, Hsig, Hav.
  assert (Hne : need_event (kick_index (event s2)) (u16 (avail_idx (guest s2)))
                  (u16 (kicked_avail_idx (guest s2))) = true).
  { rewrite Hki, Hkd, Hav, (ci_used _ _ _ _ _ I), Hempty, <- (ci_avail _ _ _ _ _ I).
    now apply need_event_after_arming. }
  unfold kick_available. rewrite Hne. cbn. now rewrite Hsig.
Qed.

(** X7.  No missed call: in a harness driven as above, when [enable_call]
    returns true (the guest found nothing to reclaim) and the host then
    makes any of its calls but [call_used], completing at least one
    buffer, its next [call_used] sends a call and records the index it
    called at -- provided the host's cursor, after these completions, is
    less than 2^16 entries past its last call. *)
Theorem no_missed_call (k N : Z) (cs hs : list call) :
  0 <= k <= 31 -> N = 2 ^ k ->
  well_driven N cs (init N) = true ->
  let s := snd (run N cs (init N)) in
  let s2 := snd (run N hs (snd (enable_call N s))) in
  let used := uses_ok (fst (run N hs (snd (enable_call N s)))) in
  fst (enable_call N s) = true ->
  forallb host_call hs = true ->
  1 <= used ->
  u16 (used_idx (host s) - called_used_idx (host s)) + used < 65536 ->
  signals (call_used s2) = signals s ++ [Call]
  /\ called_used_idx (host (call_used s2)) = used_idx (host s2).
Proof.
  intros Hk HN Hw s s2 used Hen Hg Huse Hdist.
  destruct (run_counts k N Hk HN cs Hw) as [l I]. fold s in I.
  assert (Hempty : used_empty N s = true) by exact Hen.
  apply (used_empty_core k N Hk HN _ _ _ _ I) in Hempty as [Hlu _].
  destruct (run_host_frame N hs (snd (enable_call N s)) Hg)
    as (_ & Hci & Hcd & Hsig & Hus).
  fold s2 used in Hci, Hcd, Hsig, Hus.
  cbn [enable_call snd set_event event call_index host signals] in Hci, Hcd, Hsig, Hus.
  assert (Hne : need_event (call_index (event s2)) (u16 (used_idx (host s2)))
                  (u16 (called_used_idx (host s2))) = true).
  { rewrite Hci, Hcd, Hus, (ci_last _ _ _ _ _ I), Hlu, <- (ci_used _ _ _ _ _ I).
    now apply need_event_after_arming. }
  unfold call_used. rewrite Hne. cbn. now rewrite Hsig.
Qed.

(** X8.  Signalling twice: a second [kick_available] straight after the
    first changes nothing and sends nothing, whether or not the first
    sent a kick; likewise [call_used]. *)
Theorem signalling_idempotent (s : state) :
  kick_available (kick_available s) = kick_available s
  /\ call_used (call_used s) = call_used s.
Proof.
  split.
  - unfold kick_available at 2.
    destruct (need_event _ _ _) eqn:Hn; cbn [negb].
    + unfold kick_available. cbn. now rewrite need_event_same, Hn.
    + unfold kick_available. now rewrite Hn.
  - unfold call_used at 2.
    destruct (need_event _ _ _) eqn:Hn; cbn [negb].
    + unfold call_used. cbn. now rewrite need_event_same, Hn.
    + unfold call_used. now rewrite Hn.
Qed.

(** * [get_buf] on a ring nothing was added to *)





(** * Who writes what *)

(** X10.  Each endpoint writes its own state only: a guest-side call
    leaves [struct host] and [kick_index] as they are; a host-side call
    leaves [struct guest], the shadow table and [call_index] as they
    are. *)
Theorem endpoints_own_their_state (N : Z) (c : call) (s : state) :
  match endpoint_of c with
  | Guest =>
      host (snd (exec N c s)) = host s
      /\ kick_index (event (snd (exec N c s))) = kick_index (event s)
  | Host =>
      guest (snd (exec N c s)) = guest s
      /\ data (snd (exec N c s)) = data s
      /\ call_index (event (snd (exec N c s))) = call_index (event s)
  end.
Proof.
  destruct c; cbn [endpoint_of exec]; try (repeat split; reflexivity).
  - unfold add_inbuf. case_ifs; split; reflexivity.
  - unfold get_buf. case_ifs; split; reflexivity.
  - unfold kick_available. case_ifs; split; reflexivity.
  - unfold use_buf. case_ifs; repeat split; reflexivity.
  - unfold call_used. case_ifs; repeat split; reflexivity.
Qed.

(** * Lock step *)

Lemma get_buf_frame N o s :
  host (snd (get_buf N o s)) = host s
  /\ g_wrap (guest (snd (get_buf N o s))) = g_wrap (guest s).
Proof. unfold get_buf. case_ifs; split; reflexivity. Qed.

Section LockStep.

Variables k N : Z.
Hypothesis Hk : 0 <= k <= 31.
Hypothesis HN : N = 2 ^ k.

(** One round on a ring where nothing is outstanding and the two [wrap]
    fields agree: the three calls succeed and leave such a ring. *)
Lemma round_core m s len_ b d :
  core_inv N m m m s ->
  h_wrap (host s) = g_wrap (guest s) ->
  exists o1 p o2 s',
    run N [AddInbuf len_ b d 0; UseBuf; GetBuf] s
    = ([(AddInbuf len_ b d 0, RInt 0); (UseBuf, RUse true o1);
        (GetBuf, RPtr p o2)], s')
    /\ well_driven N [AddInbuf len_ b d 0; UseBuf; GetBuf] s = true
    /\ core_inv N (m + 1) (m + 1) (m + 1) s'
    /\ h_wrap (host s') = g_wrap (guest s').
Proof.
  intros I Hhg. pose proof (N_pos k N Hk HN) as Hpos.
  destruct (ci_order _ _ _ _ _ I) as (Hm & _).
  (* add_inbuf *)
  destruct (add_inbuf_core k N Hk HN m m m s len_ b d 0 I)
    as [[Hfull _] | (_ & Hz & I1)]; [lia |].
  assert (Hhead : slot_of N (avail_idx (guest s)) = m mod N)
    by now rewrite (ci_avail _ _ _ _ _ I), (slot_of_u32 k N Hk HN).
  pose proof (added_wrap_lap k N Hk HN m m m s I) as Haw.
  rewrite add_inbuf_ok in I1, Hz;
    [| rewrite (ci_free _ _ _ _ _ I); lia
     | rewrite Hhead; now apply (slot_in_range k N Hk HN m m m)
     | rewrite (ci_free _ _ _ _ _ I); lia
     | rewrite Hhead; now apply (slot_in_range k N Hk HN m m m)].
  cbn [snd] in I1.
  set (s1 := mk_state _ _ _ _ _ _) in I1.
  (* use_buf *)
  assert (Hpw : polled_wrap N s1 = lap_wrap N m).
  { unfold polled_wrap. subst s1. cbn [host].
    rewrite (ci_used _ _ _ _ _ I), <- (ci_avail _ _ _ _ _ I), Hhg. exact Haw. }
  destruct (slot_at_used k N Hk HN m m (m + 1) s1 I1) as [Hpend _].
  specialize (Hpend ltac:(lia)).
  assert (Hu1 : slot_of N (used_idx (host s1)) = m mod N)
    by now rewrite (ci_used _ _ _ _ _ I1), (slot_of_u32 k N Hk HN).
  destruct (flags_of_wrap _ (lap_wrap_cases N m)) as (_ & Hhw & Hwr & _).
  destruct (use_buf_core k N Hk HN m m (m + 1) s1 no_outs I1)
    as [(E & _) | (_ & _ & I2)].
  { exfalso. rewrite use_buf_ok in E;
      [discriminate
      | rewrite Hu1; unfold hw_set; now rewrite Hpend, Hhw
      | now rewrite Hu1, Hpend, Hwr, Hpw]. }
  rewrite use_buf_ok in I2;
    [| rewrite Hu1; unfold hw_set; now rewrite Hpend, Hhw
     | now rewrite Hu1, Hpend, Hwr, Hpw].
  cbn [snd] in I2. set (s2 := mk_state _ _ _ _ _ _) in I2.
  (* get_buf *)
  destruct (get_buf_core k N Hk HN m (m + 1) (m + 1) s2 no_outs I2 ltac:(lia))
    as [[Hlu _] | (_ & _ & I3)]; [lia |].
  destruct (get_buf_frame N no_outs s2) as [Hh3 Hg3].
  destruct (get_buf N no_outs s2) as [[p o2] s3] eqn:Hget. cbn [snd] in *.
  eexists _, p, o2, s3. split; [| split; [| split]].
  - cbn [run exec]. rewrite add_inbuf_ok;
      [| rewrite (ci_free _ _ _ _ _ I); lia
       | rewrite Hhead; now apply (slot_in_range k N Hk HN m m m)].
    fold s1. rewrite use_buf_ok;
      [| rewrite Hu1; unfold hw_set; now rewrite Hpend, Hhw
       | now rewrite Hu1, Hpend, Hwr, Hpw].
    fold s2. rewrite Hget. reflexivity.
  - cbn [well_driven exec]. rewrite add_inbuf_ok;
      [| rewrite (ci_free _ _ _ _ _ I); lia
       | rewrite Hhead; now apply (slot_in_range k N Hk HN m m m)].
    cbn [snd]. fold s1. rewrite use_buf_ok;
      [| rewrite Hu1; unfold hw_set; now rewrite Hpend, Hhw
       | now rewrite Hu1, Hpend, Hwr, Hpw].
    cbn [snd]. fold s2. rewrite (ci_free _ _ _ _ _ I2).
    cbn [andb]. rewrite andb_true_r. apply Z.ltb_lt. lia.
  - exact I3.
  - rewrite Hh3, Hg3. subst s2 s1. cbn [host guest h_wrap g_wrap].
    now rewrite Hpw.
Qed.

Lemma lock_step_core bs : forall m s,
  core_inv N m m m s ->
  h_wrap (host s) = g_wrap (guest s) ->
  well_driven N (lock_step bs) s = true
  /\ adds_ok (fst (run N (lock_step bs) s)) = Z.of_nat (length bs)
  /\ uses_ok (fst (run N (lock_step bs) s)) = Z.of_nat (length bs)
  /\ bufs_published (fst (run N (lock_step bs) s)) = bs
  /\ core_inv N (m + Z.of_nat (length bs)) (m + Z.of_nat (length bs))
       (m + Z.of_nat (length bs)) (snd (run N (lock_step bs) s))
  /\ h_wrap (host (snd (run N (lock_step bs) s)))
     = g_wrap (guest (snd (run N (lock_step bs) s))).
Proof.
  induction bs as [| x bs IH]; intros m s I Hhg.
  - cbn [lock_step run well_driven fst snd adds_ok uses_ok bufs_published length].
    do 4 (split; [reflexivity |]). split; [| assumption].
    revert I. apply core_inv_eq; lia.
  - destruct (round_core m s (fst (fst x)) (snd (fst x)) (snd x) I Hhg)
      as (o1 & p & o2 & s' & Hrun & Hwd & I' & Hhg').
    destruct (IH (m + 1) s' I' Hhg') as (Hw & Ha & Hu & Hp & I2 & Hhg2).
    cbn [lock_step length].
    cbn [run well_driven] in Hrun, Hwd |- *.
    destruct (exec N (AddInbuf x.1.1 x.1.2 x.2 0) s) as [r1 s1].
    cbn [snd] in *.
    destruct (exec N UseBuf s1) as [r2 s2]. cbn [snd] in *.
    destruct (exec N GetBuf s2) as [r3 s3]. cbn [snd] in *.
    inversion Hrun; subst r1 r2 r3 s3. clear Hrun.
    destruct (run N (lock_step bs) s') as [tr s4]. cbn [fst snd] in *.
    apply andb_true_iff in Hwd as [_ Hwd].
    apply andb_true_iff in Hwd as [_ Hwd].
    apply andb_true_iff in Hwd as [Hnf _].
    rewrite Hnf, Hw. cbn [andb adds_ok uses_ok bufs_published].
    rewrite Ha, Hu, Hp. destruct x as [[xl xb] xd]. cbn [fst snd].
    split; [reflexivity |]. split; [lia |]. split; [lia |].
    split; [reflexivity |]. split; [| assumption].
    revert I2. apply core_inv_eq; lia.
Qed.

End LockStep.

(** A read cursor determines how many buffers were reclaimed, once the
    number completed is known. *)
Lemma core_inv_same_l N l l' u a s :
  0 < N <= 2 ^ 31 ->
  core_inv N l u a s -> core_inv N l' u a s -> l = l'.
Proof.
  intros HN I I'. change (2 ^ 31) with 2147483648 in HN.
  destruct (ci_order _ _ _ _ _ I) as (? & ? & ? & ?).
  destruct (ci_order _ _ _ _ _ I') as (? & ? & ? & ?).
  pose proof (ci_last _ _ _ _ _ I) as Hlast.
  rewrite (ci_last _ _ _ _ _ I') in Hlast.
  clear I I'. modarith.
Qed.

(** X11.  Lock step: on a ring of [2^k] entries, [k <= 16], when every
    buffer is added, completed and reclaimed before the next is added,
    then for any number of buffers (any number of laps round the ring)
    every [add_inbuf] returns 0, every [use_buf] succeeds at its first
    attempt, the harness reclaims only while a buffer is outstanding, and
    every buffer with a non-NULL tag comes back from [get_buf] with its
    tag, its [buf] and its length less one; at the end [num_free] is the
    ring size, [avail_empty] is true and the two [wrap] fields agree. *)
Theorem lock_step_rounds (k N : Z) (bs : list (Z * Z * Z)) :
  0 <= k <= 16 -> N = 2 ^ k ->
  let tr := fst (run N (lock_step bs) (init N)) in
  let s := snd (run N (lock_step bs) (init N)) in
  well_driven N (lock_step bs) (init N) = true
  /\ adds_ok tr = Z.of_nat (length bs)
  /\ uses_ok tr = Z.of_nat (length bs)
  /\ bufs_published tr = bs
  /\ bufs_reclaimed tr = List.filter nonnull_tag (completed <$> bs)
  /\ num_free (guest s) = N
  /\ avail_empty N s = true
  /\ h_wrap (host s) = g_wrap (guest s).
Proof.
  intros Hk HN tr s. assert (Hk31 : 0 <= k <= 31) by lia.
  destruct (lock_step_core k N Hk31 HN bs 0 (init N)
              (core_inv_init k N Hk31 HN) eq_refl)
    as (Hw & Ha & Hu & Hp & I & Hhg).
  fold tr s in Ha, Hu, Hp, I, Hhg. rewrite !Z.add_0_l in I.
  destruct (run_reaches k N Hk HN (lock_step bs) Hw) as (q & done & P & Hpq & Hr).
  fold tr s in P, Hpq, Hr.
  pose proof (payload_core N _ _ _ _ P) as I'. rewrite Hu in I'.
  assert (Hlen : Z.of_nat (length done) + Z.of_nat (length q)
                 = Z.of_nat (length bs)).
  { rewrite <- Hp, Hpq, length_app. lia. }
  rewrite Hlen in I'.
  assert (Hl : Z.of_nat (length bs) = Z.of_nat (length done)).
  { apply (core_inv_same_l N _ _ (Z.of_nat (length bs)) (Z.of_nat (length bs)) s);
      [| exact I | exact I'].
    split; [apply (N_pos k N Hk31 HN) | apply (N_le k N Hk31 HN)]. }
  assert (Hq : q = []) by (destruct q; [reflexivity | cbn [length] in Hlen; lia]).
  subst q. rewrite app_nil_r in Hpq. rewrite Hp in Hpq. subst done.
  repeat split; try assumption.
  - rewrite (ci_free _ _ _ _ _ I). lia.
  - now apply (avail_empty_core k N Hk31 HN _ _ _ _ I).
Qed.

(** * A ring that fills up *)

Lemma offers_core (k N : Z) (bs : list (Z * Z * Z)) :
  0 <= k <= 31 -> N = 2 ^ k ->
  forall a s,
    core_inv N 0 0 a s ->
    bufs_published (fst (run N (offers bs) s)) = take (Z.to_nat (N - a)) bs
    /\ Forall (fun x => snd x = RInt 0 \/ snd x = RInt (-1))
         (fst (run N (offers bs) s))
    /\ core_inv N 0 0
         (a + Z.of_nat (length (take (Z.to_nat (N - a)) bs)))
         (snd (run N (offers bs) s)).
Proof.
  intros Hk HN. induction bs as [| x bs IH]; intros a s I.
  - cbn [offers fmap list_fmap run fst snd bufs_published].
    rewrite take_nil. cbn [length]. split; [reflexivity |].
    split; [constructor |]. revert I. apply core_inv_eq; lia.
  - destruct (ci_order _ _ _ _ _ I) as (_ & _ & Ha0 & HaN).
    cbn [offers fmap list_fmap run exec]. fold (offers bs).
    destruct (add_inbuf_core k N Hk HN 0 0 a s x.1.1 x.1.2 x.2 0 I)
      as [[Hfull E] | (Hlt & Hz & I')].
    + rewrite E. destruct (IH a s I) as (Hp & Hall & I2).
      destruct (run N (offers bs) s) as [tr s2]. cbn [fst snd] in *.
      replace (Z.to_nat (N - a)) with 0%nat in * by lia.
      rewrite take_0 in *. cbn [bufs_published length] in *.
      split; [assumption |].
      split; [constructor; [now right | assumption] | assumption].
    + destruct (add_inbuf N x.1.1 x.1.2 x.2 0 s) as [z s1]. cbn [fst snd] in *.
      subst z. destruct (IH (a + 1) s1 I') as (Hp & Hall & I2).
      destruct (run N (offers bs) s1) as [tr s2]. cbn [fst snd] in *.
      replace (Z.to_nat (N - a)) with (S (Z.to_nat (N - (a + 1)))) by lia.
      cbn [take bufs_published length]. rewrite Hp.
      destruct x as [[xl xb] xd]. cbn [fst snd].
      split; [reflexivity |].
      split; [constructor; [now left | assumption] |].
      revert I2. apply core_inv_eq; lia.
Qed.

(** X12.  A ring that fills up: when the guest offers buffers to a fresh
    ring of [2^k] entries and nothing else is called, [add_inbuf] returns
    0 for the first [ring_size] of them and -1 for all the others, and
    [num_free] is left at the ring size less the number accepted. *)
Theorem ring_accepts_ring_size (k N : Z) (bs : list (Z * Z * Z)) :
  0 <= k <= 31 -> N = 2 ^ k ->
  let tr := fst (run N (offers bs) (init N)) in
  let s := snd (run N (offers bs) (init N)) in
  bufs_published tr = take (Z.to_nat N) bs
  /\ snd <$> tr
     = replicate (length (take (Z.to_nat N) bs)) (RInt 0)
       ++ replicate (length (drop (Z.to_nat N) bs)) (RInt (-1))
  /\ num_free (guest s) = N - Z.of_nat (length (take (Z.to_nat N) bs)).
Proof.
  intros Hk HN tr s.
  destruct (offers_core k N bs Hk HN 0 (init N) (core_inv_init k N Hk HN))
    as (Hp & _ & I).
  fold tr s in Hp, I. rewrite Z.sub_0_r in Hp, I. rewrite Z.add_0_l in I.
  split; [assumption |]. split; [| rewrite (ci_free _ _ _ _ _ I); lia].
  clear Hp I. subst tr s.
  assert (Hres : forall bs a s0,
             core_inv N 0 0 a s0 ->
             snd <$> fst (run N (offers bs) s0)
             = replicate (length (take (Z.to_nat (N - a)) bs)) (RInt 0)
               ++ replicate (length (drop (Z.to_nat (N - a)) bs)) (RInt (-1))).
  { clear bs. induction bs as [| x bs IH]; intros a s0 I.
    - rewrite take_nil, drop_nil. reflexivity.
    - destruct (ci_order _ _ _ _ _ I) as (_ & _ & Ha0 & HaN).
      cbn [offers fmap list_fmap run exec]. fold (offers bs).
      destruct (add_inbuf_core k N Hk HN 0 0 a s0 x.1.1 x.1.2 x.2 0 I)
        as [[Hfull E] | (Hlt & Hz & I')].
      + rewrite E. specialize (IH a s0 I).
        destruct (run N (offers bs) s0) as [tr s2]. cbn [fst snd] in *.
        cbn [fmap list_fmap snd]. fold (fmap (M := list) (@snd call result) tr).
        rewrite IH. replace (Z.to_nat (N - a)) with 0%nat by lia.
        rewrite !take_0, !drop_0. reflexivity.
      + destruct (add_inbuf N x.1.1 x.1.2 x.2 0 s0) as [z s1]. cbn [fst snd] in *.
        subst z. specialize (IH (a + 1) s1 I').
        destruct (run N (offers bs) s1) as [tr s2]. cbn [fst snd] in *.
        cbn [fmap list_fmap snd]. fold (fmap (M := list) (@snd call result) tr).
        rewrite IH.
        replace (Z.to_nat (N - a)) with (S (Z.to_nat (N - (a + 1)))) by lia.
        reflexivity. }
  rewrite (Hres bs 0 (init N) (core_inv_init k N Hk HN)).
  now rewrite Z.sub_0_r.
Qed.

(** * Further instances *)

Ltac by_computation := vm_compute; first [reflexivity | discriminate].

Lemma cursors_count_calls_witness :
  avail_idx (guest (snd (run 4 demo_calls (init 4))))
  = u32 (adds_ok (fst (run 4 demo_calls (init 4)))).
Proof.
  refine (proj1 (cursors_count_calls 2 4 demo_calls _ _ _)).
  - lia.
  - reflexivity.
  - reflexivity.
Defined.

Lemma avail_empty_exact_witness :
  avail_empty 4 (snd (run 4 demo_calls (init 4))) = true
  <-> uses_ok (fst (run 4 demo_calls (init 4)))
      = adds_ok (fst (run 4 demo_calls (init 4))).
Proof.
  refine (proj1 (avail_empty_exact 2 4 demo_calls _ _ _)).
  - lia.
  - reflexivity.
  - reflexivity.
Defined.

Lemma used_empty_meaning_witness :
  used_empty 4 (snd (run 4 demo_pending (init 4))) = true.
Proof.
  refine (proj2 (proj2 (used_empty_meaning 2 4 demo_pending no_outs _ _ _)) _ _ _).
  - lia.
  - reflexivity.
  - reflexivity.
  - reflexivity.
  - reflexivity.
  - by_computation.
Defined.

Lemma buffers_round_trip_witness :
  bufs_reclaimed (fst (run 4 demo_calls (init 4)))
  `prefix_of` (completed <$> bufs_published (fst (run 4 demo_calls (init 4)))).
Proof.
  refine (proj1 (proj2 (buffers_round_trip 2 4 demo_calls _ _ _)) _).
  - lia.
  - reflexivity.
  - reflexivity.
  - vm_compute. repeat constructor; discriminate.
Defined.

Lemma use_buf_within_two_witness :
  fst (fst (use_buf 4 no_outs (snd (run 4 poll_then_add (init 4))))) = true
  \/ (slot_of 4 (used_idx (host (snd (run 4 poll_then_add (init 4))))) = 0
      /\ fst (fst (use_buf 4 no_outs
                     (snd (use_buf 4 no_outs
                             (snd (run 4 poll_then_add (init 4))))))) = true).
Proof.
  refine (use_buf_within_two 2 4 poll_then_add no_outs _ _ _ _).
  - lia.
  - reflexivity.
  - reflexivity.
  - reflexivity.
Defined.

Lemma no_missed_kick_witness :
  signals (kick_available
             (snd (run 4 [AddInbuf 1 502 1003 0]
                     (snd (enable_kick 4 (snd (run 4 demo_calls (init 4))))))))
  = signals (snd (run 4 demo_calls (init 4))) ++ [Kick].
Proof.
  refine (proj1 (no_missed_kick 2 4 demo_calls [AddInbuf 1 502 1003 0]
                   _ _ _ _ _ _ _)).
  - lia.
  - reflexivity.
  - reflexivity.
  - reflexivity.
  - reflexivity.
  - by_computation.
  - by_computation.
Defined.

Lemma no_missed_call_witness :
  signals (call_used
             (snd (run 4 [UseBuf]
                     (snd (enable_call 4 (snd (run 4 demo_pending (init 4))))))))
  = signals (snd (run 4 demo_pending (init 4))) ++ [Call].
Proof.
  refine (proj1 (no_missed_call 2 4 demo_pending [UseBuf] _ _ _ _ _ _ _)).
  - lia.
  - reflexivity.
  - reflexivity.
  - reflexivity.
  - reflexivity.
  - by_computation.
  - by_computation.
Defined.


Lemma lock_step_rounds_witness :
  uses_ok (fst (run 2 (lock_step demo_buffers) (init 2)))
  = Z.of_nat (length demo_buffers).
Proof.
  refine (proj1 (proj2 (proj2 (lock_step_rounds 1 2 demo_buffers _ _)))).
  - lia.
  - reflexivity.
Defined.

Lemma ring_accepts_ring_size_witness :
  bufs_published (fst (run 2 (offers demo_buffers) (init 2)))
  = take (Z.to_nat 2) demo_buffers.
Proof.
  refine (proj1 (ring_accepts_ring_size 1 2 demo_buffers _ _)).
  - lia.
  - reflexivity.
Defined.
